(** * The recommendation client of [frontend/src/App.jsx]

    A shallow embedding of the query pipeline of the React component [App]:
    the price-range mapper, the response normalizer, the filter / sort /
    paginate pipeline and the three request handlers
    ([fetchRecommendations], [handleTrust], [handleGenerateBundle]).

    JavaScript numbers are IEEE-754 binary64 values and are modelled by
    Rocq's primitive [float]; the arithmetic of the source is therefore
    evaluated with the rounding it has in the browser.  Strings are
    sequences of bytes holding the UTF-8 encoding of the text. *)

From Stdlib Require Import ZArith QArith Qround Floats List String Ascii Bool Lia.
From Stdlib Require Import DecimalString DecimalNat Permutation Sorted.
Import ListNotations.

Close Scope Q_scope.

Set Warnings "-inexact-float,-register-all".

(** ** ECMAScript numbers *)

Module JS.

Definition number := float.

(** The Number value of a mathematical integer (correctly rounded). *)
Definition of_Z (z : Z) : number :=
SF2Prim (binary_normalize prec emax z 0 false).

(** The mathematical value [m * 2^e] of a finite number with a negative
    exponent, rounded to the nearest integer with ties towards +infinity. *)
Definition round_half_up (s : bool) (m : positive) (e : Z) : Z :=
let den := Z.pow 2 (- e) in
let num := if s then Z.neg m else Z.pos m in
Z.div (2 * num + den) (2 * den).

(** [Math.round]: NaN, the infinities and integral values are returned
    unchanged; a value in (-0.5, 0) rounds to -0. *)
Definition Math_round (x : number) : number :=
match Prim2SF x with
| S754_finite s m e =>
    if (0 <=? e)%Z then x
    else
      let n := round_half_up s m e in
      if (n =? 0)%Z then (if s then PrimFloat.neg_zero else PrimFloat.zero) else of_Z n
| _ => x
end.

(** [Math.max] and [Math.min] of two arguments: NaN is contagious and
    -0 is smaller than +0. *)
Definition Math_max (a b : number) : number :=
if is_nan a || is_nan b then nan
else if PrimFloat.ltb a b then b
else if PrimFloat.ltb b a then a
else if is_zero a && get_sign a then b else a.

Definition Math_min (a b : number) : number :=
if is_nan a || is_nan b then nan
else if PrimFloat.ltb a b then a
else if PrimFloat.ltb b a then b
else if is_zero b && get_sign b then b else a.

(** *** Completions

    An abrupt completion carries the thrown [Error] object, of which the
    handlers only read [message]. *)

Record exn := MkExn { exn_name : string; message : string }.

Inductive completion (A : Type) : Type :=
| Normal (a : A)
| Throw (e : exn).

Arguments Normal {A} a.
Arguments Throw {A} e.

Definition TypeError (msg : string) : exn := MkExn "TypeError" msg.
Definition Error (msg : string) : exn := MkExn "Error" msg.

(** *** Language values

    The values a handler meets: what [JSON.parse] builds, and [undefined]
    for a property that is not there.  An object is the list of its own
    properties (a key occurs once, as [JSON.parse] leaves it). *)

Inductive value : Type :=
| VUndefined
| VNull
| VBool (b : bool)
| VNum (n : number)
| VStr (s : string)
| VArr (items : list value)
| VObj (fields : list (string * value)).

Fixpoint own_property (fields : list (string * value)) (k : string) : option value :=
match fields with
| [] => None
| (k', v) :: rest => if String.eqb k' k then Some v else own_property rest k
end.

(** [o.k] for a value that is neither [undefined] nor [null].  The keys the
    application reads are own properties of a parsed object and nothing
    else: no prototype of a JSON value defines them. *)
Definition Get (o : value) (k : string) : value :=
match o with
| VObj fields =>
    match own_property fields k with
    | Some v => v
    | None => VUndefined
    end
| _ => VUndefined
end.

(** [o?.k]: [undefined] when [o] is [undefined] or [null]. *)
Definition opt_member (o : value) (k : string) : value :=
match o with
| VUndefined | VNull => VUndefined
| _ => Get o k
end.

Definition nullish (v : value) : bool :=
match v with
| VUndefined | VNull => true
| _ => false
end.

(** [a ?? b] where [b] has no effect. *)
Definition coalesce (a b : value) : value := if nullish a then b else a.

Definition typeof (v : value) : string :=
match v with
| VUndefined => "undefined"
| VNull => "object"
| VBool _ => "boolean"
| VNum _ => "number"
| VStr _ => "string"
| VArr _ => "object"
| VObj _ => "object"
end.

Definition truthy_number (n : number) : bool := negb (is_nan n || is_zero n).

Definition ToBoolean (v : value) : bool :=
match v with
| VUndefined | VNull => false
| VBool b => b
| VNum n => truthy_number n
| VStr s => negb (String.eqb s "")
| VArr _ | VObj _ => true
end.

Definition isArray (v : value) : bool :=
match v with
| VArr _ => true
| _ => false
end.

Local Open Scope N_scope.

Definition code_units (s : string) : list N := map N_of_ascii (list_ascii_of_string s).

(** *** [StringToNumber]

    A string is read through its bytes.  White space is the ASCII white
    space and line terminators, U+00A0, U+1680, U+2000 to U+200A, U+2028,
    U+2029, U+202F, U+205F, U+3000 and U+FEFF in their UTF-8 encoding. *)

Definition is_usp_tail (c : N) : bool :=
((128 <=? c) && (c <=? 138)) || (c =? 168) || (c =? 169) || (c =? 175).

Fixpoint skip_ws (l : list N) : list N :=
match l with
| 9 :: r | 10 :: r | 11 :: r | 12 :: r | 13 :: r | 32 :: r => skip_ws r
| 194 :: 160 :: r => skip_ws r
| 225 :: 154 :: 128 :: r => skip_ws r
| 226 :: 128 :: c :: r => if is_usp_tail c then skip_ws r else l
| 226 :: 129 :: 159 :: r => skip_ws r
| 227 :: 128 :: 128 :: r => skip_ws r
| 239 :: 187 :: 191 :: r => skip_ws r
| _ => l
end.

Definition all_ws (l : list N) : bool :=
match skip_ws l with
| [] => true
| _ => false
end.

Definition digit_below (base c : N) : option N :=
let d :=
  if (48 <=? c) && (c <=? 57) then Some (c - 48)
  else if (97 <=? c) && (c <=? 102) then Some (c - 87)
  else if (65 <=? c) && (c <=? 70) then Some (c - 55)
  else None in
match d with
| Some v => if v <? base then Some v else None
| None => None
end.

(** The longest prefix of digits in [base]: its value read from [acc], the
    number of digits and the rest. *)
Fixpoint digits (base : N) (acc : N) (count : N) (l : list N) : N * N * list N :=
match l with
| c :: r =>
    match digit_below base c with
    | Some d => digits base (acc * base + d) (count + 1) r
    | None => (acc, count, l)
    end
| [] => (acc, count, l)
end.

(** The quotient of two integers, rounded to the nearest binary64 value. *)
Definition round_ratio (neg : bool) (num den : positive) : number :=
SF2Prim (SFdiv prec emax (S754_finite neg num 0) (S754_finite false den 0)).

(** The Number value of [m * 10^e]. *)
Definition decimal_value (neg : bool) (m : N) (e : Z) : number :=
match m with
| N0 => if neg then PrimFloat.neg_zero else PrimFloat.zero
| Npos p =>
    match e with
    | Zneg k => round_ratio neg p (Pos.pow 10 k)
    | _ => of_Z ((if neg then Z.neg p else Z.pos p) * Z.pow 10 e)
    end
end.

Definition exponent_part (l : list N) : option (Z * list N) :=
match l with
| c :: r =>
    if (c =? 101) || (c =? 69) then
      let '(neg, r1) :=
        match r with
        | 43 :: r' => (false, r')
        | 45 :: r' => (true, r')
        | _ => (false, r)
        end in
      let '(v, n, rest) := digits 10 0 0 r1 in
      if n =? 0 then None
      else Some (if neg then Z.opp (Z.of_N v) else Z.of_N v, rest)
    else Some (0%Z, l)
| [] => Some (0%Z, [])
end.

Definition unsigned_decimal (neg : bool) (l : list N) : number :=
match l with
| 73 :: 110 :: 102 :: 105 :: 110 :: 105 :: 116 :: 121 :: r =>
    if all_ws r then (if neg then neg_infinity else infinity) else nan
| _ =>
    let '(ip, ni, r1) := digits 10 0 0 l in
    let '(m, nf, r2) :=
      match r1 with
      | 46 :: r' => digits 10 ip 0 r'
      | _ => (ip, 0, r1)
      end in
    if ni + nf =? 0 then nan
    else
      match exponent_part r2 with
      | Some (e, r3) => if all_ws r3 then decimal_value neg m (e - Z.of_N nf) else nan
      | None => nan
      end
end.

Definition signed_decimal (l : list N) : number :=
match l with
| 43 :: r => unsigned_decimal false r
| 45 :: r => unsigned_decimal true r
| _ => unsigned_decimal false l
end.

Definition radix_literal (base : N) (l : list N) : number :=
let '(v, n, rest) := digits base 0 0 l in
if n =? 0 then nan else if all_ws rest then of_Z (Z.of_N v) else nan.

(** [StringToNumber]: white space is trimmed; the empty string is 0; a
    decimal literal is rounded to the nearest binary64 value. *)
Definition StringToNumber (s : string) : number :=
match skip_ws (code_units s) with
| [] => PrimFloat.zero
| 48 :: 120 :: r | 48 :: 88 :: r => radix_literal 16 r
| 48 :: 111 :: r | 48 :: 79 :: r => radix_literal 8 r
| 48 :: 98 :: r | 48 :: 66 :: r => radix_literal 2 r
| l => signed_decimal l
end.

Local Close Scope N_scope.

(** *** [ToNumber]

    [ToPrimitive] of a parsed object calls [Object.prototype.valueOf], which
    returns the object, and then looks up [toString]: an own property of
    that name holds a JSON value, which is not callable, and the conversion
    throws a TypeError.  [Array.prototype.join] converts every element that
    is not [undefined] or [null] the same way. *)

Fixpoint to_primitive_ok (v : value) : bool :=
match v with
| VObj fields =>
    match own_property fields "toString" with
    | Some _ => false
    | None => true
    end
| VArr items => forallb to_primitive_ok items
| _ => true
end.

(** The Number value when [ToPrimitive] succeeds.  An object prints as
    [[object Object]]; an array prints as its elements joined by commas, so
    only the empty array and an array of one element can be numeric.  The
    decimal string of a number reads back as that number, -0 as +0. *)
Fixpoint numeric_value (v : value) : number :=
match v with
| VUndefined => nan
| VNull => PrimFloat.zero
| VBool b => if b then PrimFloat.one else PrimFloat.zero
| VNum n => n
| VStr s => StringToNumber s
| VArr [] => PrimFloat.zero
| VArr [x] =>
    match x with
    | VUndefined | VNull => PrimFloat.zero
    | VBool _ => nan
    | VNum n => if is_zero n then PrimFloat.zero else n
    | VStr s => StringToNumber s
    | VArr _ => numeric_value x
    | VObj _ => nan
    end
| VArr _ => nan
| VObj _ => nan
end.

Definition ToNumber (v : value) : completion number :=
if to_primitive_ok v then Normal (numeric_value v)
else Throw (TypeError "Cannot convert object to primitive value").

(** *** Strings *)

Definition is_digit_or_dot (c : ascii) : bool :=
let n := N_of_ascii c in
(((48 <=? n) && (n <=? 57)) || (n =? 46))%N.

Fixpoint keep (f : ascii -> bool) (s : string) : string :=
match s with
| EmptyString => EmptyString
| String c rest => if f c then String c (keep f rest) else keep f rest
end.

(** [v.replace(/[^\d.]/g, "")]: a method of strings only.  The characters
    kept are ASCII, so the bytes kept are the code units kept. *)
Definition replace_non_digit_dot (v : value) : completion string :=
match v with
| VStr s => Normal (keep is_digit_or_dot s)
| _ => Throw (TypeError "replace is not a function")
end.

(** The decimal digits of an array index or a status code. *)
Definition decimal (n : nat) : string := NilEmpty.string_of_uint (Nat.to_uint n).

End JS.

(** ** The price-range mapper (the [useEffect] on [priceImportance]) *)

Module PriceRange.

Import JS.

Local Open Scope float_scope.

Definition maxPrice : number := 100000.

Definition center (priceImportance : number) : number :=
Math_round ((1 - priceImportance / 100) * (maxPrice * 0.6) + (maxPrice * 0.2)).

Definition span (priceImportance : number) : number :=
Math_round ((1 - priceImportance / 100) * (maxPrice * 0.4) + 500).

Definition priceRange_of (priceImportance : number) : number * number :=
let c := center priceImportance in
let s := span priceImportance in
let min := Math_max 0 (Math_round (c - s / 2)) in
let max := Math_min maxPrice (Math_round (c + s / 2)) in
(min, max).

Local Close Scope float_scope.

(** The formula of the specification, read over the rationals. *)

Local Open Scope Q_scope.

Definition round_Q (q : Q) : Z := Qfloor (q + (1 # 2)).

Definition spec_center (p : Z) : Z :=
round_Q ((1 - inject_Z p / 100) * ((6 # 10) * 100000) + (2 # 10) * 100000).

Definition spec_span (p : Z) : Z :=
round_Q ((1 - inject_Z p / 100) * ((4 # 10) * 100000) + 500).

Definition spec_min (p : Z) : Z :=
Z.max 0 (round_Q (inject_Z (spec_center p) - inject_Z (spec_span p) / 2)).

Definition spec_max (p : Z) : Z :=
Z.min 100000 (round_Q (inject_Z (spec_center p) + inject_Z (spec_span p) / 2)).

Local Close Scope Q_scope.

End PriceRange.

(** ** The response normalizer ([arr.map] in [fetchRecommendations]) *)

Module Normalizer.

Import JS.

Record Product := MkProduct {
  asin : value;
  title : value;
  score : number;
  reviews : number;
  price : option number;
  image : value;
  raw : value
}.

Section WithRandom.

(** The successive results of [Math.random()]. *)
Variable random : nat -> number.

(** A computation that may throw and may draw random numbers; the state is
    the number of draws made so far. *)
Definition M (A : Type) : Type := nat -> completion (A * nat).

Definition ret {A} (a : A) : M A := fun k => Normal (a, k).

Definition bind {A B} (m : M A) (f : A -> M B) : M B :=
fun k =>
  match m k with
  | Normal (a, k') => f a k'
  | Throw e => Throw e
  end.

Definition lift {A} (c : completion A) : M A :=
fun k =>
  match c with
  | Normal a => Normal (a, k)
  | Throw e => Throw e
  end.

Definition Math_random : M number := fun k => Normal (random k, S k).

Notation "x <- m ;; f" := (bind m (fun x => f))
  (at level 61, m at next level, right associativity).

(** [p?.price ?? p?.price_value ?? p?.pricing ?? null] *)
Definition source_price (p : value) : value :=
coalesce
  (coalesce (coalesce (opt_member p "price") (opt_member p "price_value"))
     (opt_member p "pricing"))
  VNull.

(** [n || null] for a number [n]. *)
Definition number_or_null (n : number) : option number :=
if truthy_number n then Some n else None.

(** [n || 0] for a number [n]. *)
Definition number_or_zero (n : number) : number :=
if truthy_number n then n else PrimFloat.zero.

Definition parsedPrice (price : value) : completion (option number) :=
match price with
| VNum n => Normal (Some n)
| _ =>
    if ToBoolean price && String.eqb (typeof price) "string" then
      match replace_non_digit_dot price with
      | Normal digits =>
          match ToNumber (VStr digits) with
          | Normal n => Normal (number_or_null n)
          | Throw e => Throw e
          end
      | Throw e => Throw e
      end
    else Normal None
end.

(** [p?.asin ?? p?.ASIN ?? `ASINFALLBACK${idx}`] *)
Definition fallback_asin (idx : nat) : string := "ASINFALLBACK" ++ decimal idx.

Definition asin_of (idx : nat) (p : value) : value :=
coalesce (coalesce (opt_member p "asin") (opt_member p "ASIN"))
  (VStr (fallback_asin idx)).

(** [p?.title ?? p?.name ?? p?.summary ?? "Untitled product"] *)
Definition title_of (p : value) : value :=
coalesce
  (coalesce (coalesce (opt_member p "title") (opt_member p "name"))
     (opt_member p "summary"))
  (VStr "Untitled product").

(** [p?.score ?? p?.similarity ?? 0] *)
Definition source_score (p : value) : value :=
coalesce (coalesce (opt_member p "score") (opt_member p "similarity"))
  (VNum PrimFloat.zero).

(** [p?.reviews ?? p?.review_count] *)
Definition source_reviews (p : value) : value :=
coalesce (opt_member p "reviews") (opt_member p "review_count").

(** [Math.round(Math.random() * 2000)] *)
Definition placeholder_reviews : M value :=
r <- Math_random ;; ret (VNum (Math_round (PrimFloat.mul r 2000))).

Definition normalize_element (idx : nat) (p : value) : M Product :=
_price <- lift (parsedPrice (source_price p)) ;;
s <- lift (ToNumber (source_score p)) ;;
rv <- (if nullish (source_reviews p) then placeholder_reviews
       else ret (source_reviews p)) ;;
r <- lift (ToNumber rv) ;;
ret {| asin := asin_of idx p;
       title := title_of p;
       score := number_or_zero s;
       reviews := number_or_zero r;
       price := _price;
       image := coalesce (opt_member p "image") VNull;
       raw := p |}.

Fixpoint map_from (idx : nat) (arr : list value) : M (list Product) :=
match arr with
| [] => ret []
| p :: rest =>
    x <- normalize_element idx p ;;
    xs <- map_from (S idx) rest ;;
    ret (x :: xs)
end.

(** [Array.isArray(json) ? json : []] *)
Definition ensure_array (json : value) : list value :=
match json with
| VArr items => items
| _ => []
end.

Definition normalized (json : value) : M (list Product) :=
map_from 0 (ensure_array json).

(** One pass of the normalizer, started with no draw made. *)
Definition normalize (json : value) : completion (list Product) :=
match normalized json 0 with
| Normal (ps, _) => Normal ps
| Throw e => Throw e
end.

End WithRandom.

End Normalizer.

(** ** Filter, sort and paginate *)

Module Pipeline.

Import JS Normalizer.

(** The callback of [normalized.filter]: a price that is a number and not
    NaN must lie in the window; any other product is kept. *)
Definition in_window (priceRange : number * number) (x : Product) : bool :=
let '(minP, maxP) := priceRange in
match price x with
| Some n =>
    if negb (is_nan n) then PrimFloat.leb minP n && PrimFloat.leb n maxP
    else true
| None => true
end.

Definition filtered (priceRange : number * number) (ps : list Product) : list Product :=
filter (in_window priceRange) ps.

(** The comparator handed to [filtered.sort]. *)
Definition comparefn (sortBy : string) (a b : Product) : number :=
if String.eqb sortBy "price" then
  match price a with
  | None => PrimFloat.one
  | Some pa =>
      match price b with
      | None => PrimFloat.opp PrimFloat.one
      | Some pb => PrimFloat.sub pa pb
      end
  end
else if String.eqb sortBy "reviews" then PrimFloat.sub (reviews b) (reviews a)
else PrimFloat.sub (score b) (score a).

(** [Array.prototype.sort].  ECMAScript requires the sort to be stable and
    fixes the result for a consistent comparator; for any other comparator
    the order is left to the engine.  The model is the stable insertion sort
    with the calling convention of V8 (the engine of Chrome and Node), whose
    insertions and merges compare an element with one that precedes it as
    [comparefn(later, earlier)] and move the later element in front only
    when the result is negative; a NaN result counts as +0.  Whenever
    [comparefn(x, y) < 0] is a strict weak ordering of the elements, every
    stable sort that asks only this question returns the list of the
    model. *)

Section Sort.

Context {A : Type} (cmp : A -> A -> number).

(** [comparefn(x, y) < 0] *)
Definition sorts_before (x y : A) : bool := PrimFloat.ltb (cmp x y) PrimFloat.zero.

(** The element [x] joins the elements sorted so far, which are held last
    first: it passes the elements it sorts before. *)
Fixpoint insert (x : A) (back : list A) : list A :=
match back with
| [] => [x]
| y :: rest => if sorts_before x y then y :: insert x rest else x :: back
end.

Definition Array_sort (l : list A) : list A :=
rev (fold_left (fun back x => insert x back) l []).

End Sort.

Definition sorted (sortBy : string) (ps : list Product) : list Product :=
Array_sort (comparefn sortBy) ps.

(** [Array.prototype.slice(start, end)] with integral arguments. *)
Definition slice {A : Type} (l : list A) (start fin : Z) : list A :=
let len := Z.of_nat (List.length l) in
let k := if (start <? 0)%Z then Z.max (len + start) 0 else Z.min start len in
let final := if (fin <? 0)%Z then Z.max (len + fin) 0 else Z.min fin len in
firstn (Z.to_nat (Z.max (final - k) 0)) (skipn (Z.to_nat k) l).

Definition PAGE_SIZE : Z := 12.

(** [Math.max(1, Math.ceil(products.length / PAGE_SIZE))].  The quotient of
    an array length by 12 is a multiple of 1/12, which binary64 division
    cannot round across an integer, so the ceiling is that of the exact
    quotient. *)
Definition totalPages {A : Type} (products : list A) : Z :=
Z.max 1 (Qceiling (Z.of_nat (List.length products) # 12)).

(** [products.slice((page - 1) * PAGE_SIZE, page * PAGE_SIZE)] *)
Definition shown {A : Type} (products : list A) (page : Z) : list A :=
slice products ((page - 1) * PAGE_SIZE) (page * PAGE_SIZE).

(** The updaters of the two pager buttons. *)
Definition prev_page (p : Z) : Z := Z.max 1 (p - 1).

Definition next_page {A : Type} (products : list A) (p : Z) : Z :=
Z.min (totalPages products) (p + 1).

End Pipeline.

(** ** Application state and the effects of the handlers *)

Module App.

Import JS Normalizer Pipeline.

Local Open Scope string_scope.

Definition BACKEND : string := "http://127.0.0.1:5000".

Record TrustState := MkTrust {
  trust_asin : value;
  trust_loading : bool;
  trust_data : value
}.

Record AppState := MkState {
  prompt : string;
  debouncedPrompt : string;
  priceImportance : Z;
  priceRange : number * number;
  sortBy : string;
  page : Z;
  products : list Product;
  loading : bool;
  trustFor : option TrustState;
  error : option string
}.

(** What a handler does to the outside: the state setters of [useState],
    the logging side channel, the console, [alert], [fetch], and the points
    at which it is suspended on a promise. *)
Inductive effect : Type :=
| SetLoading (b : bool)
| SetError (e : option string)
| SetProducts (ps : list Product)
| SetPage (n : Z)
| SetTrustFor (t : option TrustState)
| SendLog (level msg : string) (meta : value)
| Console (level label : string)
| Alert (msg : string)
| Fetch (method url : string) (body : option string)
| Await.

Definition apply_effect (st : AppState) (e : effect) : AppState :=
match e with
| SetLoading b =>
    MkState (prompt st) (debouncedPrompt st) (priceImportance st) (priceRange st)
      (sortBy st) (page st) (products st) b (trustFor st) (error st)
| SetError err =>
    MkState (prompt st) (debouncedPrompt st) (priceImportance st) (priceRange st)
      (sortBy st) (page st) (products st) (loading st) (trustFor st) err
| SetProducts ps =>
    MkState (prompt st) (debouncedPrompt st) (priceImportance st) (priceRange st)
      (sortBy st) (page st) ps (loading st) (trustFor st) (error st)
| SetPage n =>
    MkState (prompt st) (debouncedPrompt st) (priceImportance st) (priceRange st)
      (sortBy st) n (products st) (loading st) (trustFor st) (error st)
| SetTrustFor t =>
    MkState (prompt st) (debouncedPrompt st) (priceImportance st) (priceRange st)
      (sortBy st) (page st) (products st) (loading st) t (error st)
| SendLog _ _ _ | Console _ _ | Alert _ | Fetch _ _ _ | Await => st
end.

Definition run_effects (st : AppState) (t : list effect) : AppState :=
fold_left apply_effect t st.

Definition writes_state (e : effect) : bool :=
match e with
| SetLoading _ | SetError _ | SetProducts _ | SetPage _ | SetTrustFor _ => true
| _ => false
end.

Definition is_fetch (e : effect) : bool :=
match e with
| Fetch _ _ _ => true
| _ => false
end.

(** A handler: the effects it has had, and how it completed. *)
Definition H (A : Type) : Type := (list effect * completion A)%type.

Definition ret {A} (a : A) : H A := ([], Normal a).

Definition bind {A B} (m : H A) (f : A -> H B) : H B :=
match m with
| (t, Normal a) => let '(t', r) := f a in ((t ++ t')%list, r)
| (t, Throw e) => (t, Throw e)
end.

Definition emit (e : effect) : H unit := ([e], Normal tt).

Definition throw {A} (e : exn) : H A := ([], Throw e).

Definition lift {A} (c : completion A) : H A := ([], c).

Definition await : H unit := emit Await.

(** [try { body } catch (e) { handler(e) }] *)
Definition try_catch {A} (body : H A) (handler : exn -> H A) : H A :=
match body with
| (t, Throw e) => let '(t', r) := handler e in ((t ++ t')%list, r)
| done => done
end.

(** [try { body } finally { fin }] *)
Definition try_finally {A} (body : H A) (fin : H unit) : H A :=
let '(t, r) := body in
let '(t', r') := fin in
((t ++ t')%list, match r' with
          | Throw e => Throw e
          | Normal _ => r
          end).

Notation "x <- m ;; f" := (bind m (fun x => f))
  (at level 61, m at next level, right associativity).
Notation "m ;; f" := (bind m (fun _ => f))
  (at level 61, right associativity).

Definition effects {A} (h : H A) : list effect := fst h.

Definition outcome_of {A} (h : H A) : completion A := snd h.

(** The answer of the network: [fetch] rejects, or resolves to a response
    whose [text()] and [json()] resolve ([Some]) or reject ([None]). *)
Record Response := MkResponse {
  status : nat;
  body_text : option string;
  body_json : option value
}.

Inductive fetch_outcome : Type :=
| Rejected (e : exn)
| Resolved (res : Response).

(** [res.ok] *)
Definition ok (res : Response) : bool :=
(200 <=? status res)%nat && (status res <=? 299)%nat.

(** [await fetch(url, init)] *)
Definition fetch (method url : string) (body : option string)
  (outcome : fetch_outcome) : H Response :=
emit (Fetch method url body) ;;
await ;;
match outcome with
| Rejected e => throw e
| Resolved res => ret res
end.

(** [await res.text().catch(() => "")] *)
Definition text_or_empty (res : Response) : H string :=
await ;;
ret (match body_text res with
     | Some t => t
     | None => ""
     end).

(** [a || b] on strings. *)
Definition or_else (a b : string) : string := if String.eqb a "" then b else a.

(** [a ?? b] where [a] may be missing. *)
Definition or_default {A} (a : option A) (b : A) : A :=
match a with
| Some x => x
| None => b
end.

Definition Z_decimal (z : Z) : string := NilZero.string_of_int (Z.to_int z).

(** The three endpoints. *)
Definition recommend_url (enc : string) (slider : Z) : string :=
BACKEND ++ "/api/recommend?prompt=" ++ enc ++ "&slider=" ++ Z_decimal slider.

Definition trust_url (enc : string) : string := BACKEND ++ "/api/trust/" ++ enc.

Definition bundle_url : string := BACKEND ++ "/api/generate_bundle".

Arguments recommend_url : simpl never.
Arguments trust_url : simpl never.
Arguments bundle_url : simpl never.

Definition obj (fields : list (string * value)) : value := VObj fields.

Section Handlers.

(** The runtime functions the handlers call and the model leaves open. *)
Variable random : nat -> number.
Variable encodeURIComponent : value -> completion string.
Variable ToString : value -> completion string.
Variable JSON_stringify : value -> string.
Variable JSON_parse : string -> completion value.

(** [throw new Error(text || `Bad response: ${res.status}`)] *)
Definition bad_response {A} (res : Response) : H A :=
text <- text_or_empty res ;;
throw (Error (or_else text ("Bad response: " ++ decimal (status res)))).

(** The request of [fetchRecommendations]: the body of its [try] block,
    in a render whose state is [st], for the query [q]. *)
Definition load_recommendations (st : AppState) (q : string)
  (outcome : fetch_outcome) : H unit :=
enc <- lift (encodeURIComponent (VStr q)) ;;
res <- fetch "GET" (recommend_url enc (priceImportance st)) None outcome ;;
(if negb (ok res) then bad_response res else ret tt) ;;
await ;;
json <- match body_json res with
        | Some j => ret j
        | None => throw (Error "Invalid JSON returned from /api/recommend")
        end ;;
let arr := ensure_array json in
normalized <- lift (normalize random json) ;;
let sorted := sorted (sortBy st) (filtered (priceRange st) normalized) in
emit (SetProducts sorted) ;;
emit (SetPage 1) ;;
emit (SendLog "success" "fetchRecommendations:done"
        (obj [("totalReceived", VNum (of_Z (Z.of_nat (List.length arr))));
              ("afterFilter", VNum (of_Z (Z.of_nat (List.length sorted))))])) ;;
emit (Console "log" "[RECS]").

(** Its [catch] block. *)
Definition report_failure (e : exn) : H unit :=
emit (Console "error" "[RECS ERROR]") ;;
emit (SetError (Some (or_else (message e) "Failed to load recommendations"))) ;;
emit (SendLog "error" "fetchRecommendations:error"
        (obj [("message", VStr (message e))])) ;;
emit (SetProducts []).

(** [fetchRecommendations(opts)], as built by [useCallback] in a render
    whose state is [st]. *)
Definition fetchRecommendations (st : AppState) (opts_prompt : option string)
  (outcome : fetch_outcome) : H unit :=
emit (SetLoading true) ;;
emit (SetError None) ;;
let q := or_default opts_prompt (or_default (Some (debouncedPrompt st)) (prompt st)) in
emit (SendLog "info" "fetchRecommendations:start"
        (obj [("q", VStr q); ("priceImportance", VNum (of_Z (priceImportance st)));
              ("sortBy", VStr (sortBy st))])) ;;
try_finally
  (try_catch (load_recommendations st q outcome) report_failure)
  (emit (SetLoading false)).

(** [handleTrust(asin)] *)
Definition handleTrust (asin : value) (outcome : fetch_outcome) : H unit :=
emit (SetTrustFor (Some (MkTrust asin true VNull))) ;;
emit (SendLog "info" "trust:request" (obj [("asin", asin)])) ;;
try_catch
  (enc <- lift (encodeURIComponent asin) ;;
   res <- fetch "GET" (trust_url enc) None outcome ;;
   (if negb (ok res) then bad_response res else ret tt) ;;
   await ;;
   let j := match body_json res with
            | Some j => j
            | None => obj [("error", VStr "Invalid JSON from /api/trust")]
            end in
   emit (SetTrustFor (Some (MkTrust asin false j))) ;;
   emit (SendLog "success" "trust:loaded" (obj [("asin", asin)])) ;;
   emit (Console "log" "[TRUST DATA]"))
  (fun e =>
     emit (Console "error" "[TRUST ERROR]") ;;
     emit (SetTrustFor (Some (MkTrust asin false (obj [("error", VStr (message e))])))) ;;
     emit (SendLog "error" "trust:error"
             (obj [("asin", asin); ("message", VStr (message e))]))).

(** [handleGenerateBundle()] in a render whose state is [st]. *)
Definition handleGenerateBundle (st : AppState) (outcome : fetch_outcome) : H unit :=
emit (SendLog "info" "bundle:request" (obj [("prompt", VStr (debouncedPrompt st))])) ;;
try_catch
  (res <- fetch "POST" bundle_url
            (Some (JSON_stringify (obj [("prompt", VStr (debouncedPrompt st))])))
            outcome ;;
   (if negb (ok res) then
      text <- text_or_empty res ;;
      let parsed := match JSON_parse text with
                    | Normal v => v
                    | Throw _ => VNull
                    end in
      let detail :=
        coalesce
          (coalesce (coalesce (opt_member parsed "detail") (opt_member parsed "error"))
             (VStr text))
          (VStr ("HTTP " ++ decimal (status res))) in
      msg <- lift (ToString detail) ;;
      throw (Error msg)
    else ret tt) ;;
   await ;;
   j <- match body_json res with
        | Some j => ret j
        | None => throw (Error "Invalid JSON from /api/generate_bundle")
        end ;;
   emit (SendLog "success" "bundle:done" (obj [("j", j)])) ;;
   emit (Console "log" "[BUNDLE]") ;;
   emit (Alert "Bundle generated (check console / backend)."))
  (fun e =>
     emit (SendLog "error" "bundle:error" (obj [("message", VStr (message e))])) ;;
     emit (Alert ("Bundle failed: " ++ message e))).

End Handlers.

(** The state of the first render. *)
Definition initial_state : AppState :=
{| prompt := "laptop";
   debouncedPrompt := "laptop";
   priceImportance := 30;
   priceRange := (PrimFloat.zero, 20000%float);
   sortBy := "score";
   page := 1;
   products := [];
   loading := false;
   trustFor := None;
   error := None |}.

(** [encodeURIComponent] on a string of unreserved characters, which it
    leaves as they are. *)
Definition plain_encoding (v : value) : completion string :=
match v with
| VStr s => Normal s
| _ => Throw (TypeError "not a string")
end.

(** *** Scheduling

    A handler runs until it awaits; the effects between two awaits are one
    segment, and the segments of the handlers in flight are interleaved. *)

Fixpoint segments (t : list effect) : list (list effect) :=
match t with
| [] => [[]]
| Await :: rest => [] :: segments rest
| e :: rest =>
    match segments rest with
    | s :: more => (e :: s) :: more
    | [] => [[e]]
    end
end.

Inductive interleaving : list (list effect) -> list (list effect) -> list effect -> Prop :=
| interleaving_done : interleaving [] [] []
| interleaving_left s a b t :
    interleaving a b t -> interleaving (s :: a) b (s ++ t)%list
| interleaving_right s a b t :
    interleaving a b t -> interleaving a (s :: b) (s ++ t)%list.

End App.

(** ** The debounced value ([useDebounced]) *)

Module Debounce.

(** The hook between two events: the state [v] it returns, the arguments
    its effect last ran with, and the timeout that effect left pending (the
    value it will store and the time from which it may fire). *)
Record Hook := MkHook {
  v : string;
  value : string;
  ms : nat;
  timer : option (string * nat)
}.

(** The first render at time [now]: [useState(value)], then the effect. *)
Definition mount (now : nat) (value0 : string) (ms0 : nat) : Hook :=
MkHook value0 value0 ms0 (Some (value0, now + ms0)).

(** A later render at time [now].  The effect runs again only when [value]
    or [ms] changed: its cleanup clears the pending timeout and a new one is
    set. *)
Definition render (now : nat) (value' : string) (ms' : nat) (h : Hook) : Hook :=
if String.eqb value' (value h) && Nat.eqb ms' (ms h) then h
else MkHook (v h) value' ms' (Some (value', now + ms')).

(** The clock reaches [now]: a timeout that is due runs [setV(value)]. *)
Definition timeout (now : nat) (h : Hook) : Hook :=
match timer h with
| Some (x, due) => if due <=? now then MkHook x (value h) (ms h) None else h
| None => h
end.

Inductive event : Type :=
| Render (now : nat) (value' : string) (ms' : nat)
| Timeout (now : nat).

Definition step (h : Hook) (e : event) : Hook :=
match e with
| Render now value' ms' => render now value' ms' h
| Timeout now => timeout now h
end.

Definition run (h : Hook) (es : list event) : Hook := fold_left step es h.

End Debounce.

(** ** What the components show *)

Module Components.

Import JS Normalizer Pipeline App.

Local Open Scope string_scope.

(** The pieces of the body of [TrustModal]. *)
Inductive block : Type :=
| LoadingNote
| NoDataNote
| ErrorPill (error : value)
| TrustScore (score : value)
| Highlights (items : list value)
| RawData (data : value)
| Text (v : value).

(** A value as a child of an element: a string or a number shows, a
    boolean, [null] and [undefined] show nothing, an array shows its
    elements, and React refuses an object that is not an element. *)
Fixpoint renderable (v : value) : bool :=
match v with
| VObj _ => false
| VArr items => forallb renderable items
| _ => true
end.

Definition invalid_child : exn := Error "Objects are not valid as a React child".

(** A piece that shows [children]. *)
Definition showing (children : list value) (b : block) : completion (list block) :=
if forallb renderable children then Normal [b] else Throw invalid_child.

(** Two renderings, one after the other. *)
Definition both (a b : completion (list block)) : completion (list block) :=
match a, b with
| Normal x, Normal y => Normal (x ++ y)%list
| Throw e, _ => Throw e
| _, Throw e => Throw e
end.

(** [{cond && content}]: a falsy [cond] is what is rendered, and of the
    falsy values only a number shows. *)
Definition guarded (cond : value) (content : completion (list block)) :
  completion (list block) :=
if ToBoolean cond then content
else match cond with
     | VNum _ => Normal [Text cond]
     | _ => Normal []
     end.

Definition is_undefined (v : value) : bool :=
match v with
| VUndefined => true
| _ => false
end.

(** [data.explanations.slice(0, 8)] when [data.explanations] is an array,
    each item the child of a list item. *)
Definition highlights (explanations : value) : completion (list block) :=
match explanations with
| VArr items => showing (slice items 0 8) (Highlights (slice items 0 8))
| _ => Normal []
end.

(** The children of [modal-body]: the pieces shown, or the error React
    throws while rendering them.  The head of the modal, which shows the
    asin, and its buttons are not part of the model. *)
Definition TrustModal (loading : bool) (data : value) : completion (list block) :=
both (if loading then Normal [LoadingNote] else Normal [])
  (both (if negb loading && negb (ToBoolean data) then Normal [NoDataNote] else Normal [])
     (if negb loading then
        guarded data
          (both (guarded (Get data "error")
                   (showing [Get data "error"] (ErrorPill (Get data "error"))))
             (both (if negb (is_undefined (Get data "trust_score"))
                    then showing [Get data "trust_score"]
                           (TrustScore (Get data "trust_score"))
                    else Normal [])
                (both (guarded (Get data "explanations")
                         (highlights (Get data "explanations")))
                   (Normal [RawData data]))))
      else Normal [])).

(** [{trustFor && <TrustModal ... />}] *)
Definition trust_modal (st : AppState) : option (completion (list block)) :=
match trustFor st with
| Some t => Some (TrustModal (trust_loading t) (trust_data t))
| None => None
end.

(** [disabled={page === 1}] and [disabled={page === totalPages}] *)
Definition prev_disabled (st : AppState) : bool := Z.eqb (page st) 1.

Definition next_disabled (st : AppState) : bool :=
Z.eqb (page st) (totalPages (products st)).

End Components.

(** ** The logging side channel ([sendLog]) *)

Module Logger.

Import JS App.

Local Open Scope string_scope.

Section Runtime.

Variable toUpperCase : string -> string.
Variable JSON_stringify : value -> completion string.
(** [new Date().toISOString()] *)
Variable timestamp : string.

Definition console_method (level : string) : string :=
if String.eqb level "error" then "error"
else if String.eqb level "warn" then "warn"
else "log".

Definition log_url : string := BACKEND ++ "/api/log".

(** [sendLog(level, message, meta)].  The request is not awaited and its
    rejection is swallowed. *)
Definition sendLog (level message : string) (meta : value) : H unit :=
try_catch
  (let tag := "[Front][" ++ toUpperCase level ++ "]" in
   emit (Console (console_method level) tag) ;;
   body <- lift (JSON_stringify
                   (obj [("level", VStr level); ("message", VStr message);
                         ("meta", meta); ("ts", VStr timestamp)])) ;;
   emit (Fetch "POST" log_url (Some body)))
  (fun e => emit (Console "error" "[sendLog error]")).

End Runtime.

Section Trace.

Variable toUpperCase : string -> string.
Variable JSON_stringify : value -> completion string.
(** [new Date().toISOString()] at the [k]-th call of [sendLog]. *)
Variable clock : nat -> string.

(** The effects of a handler with every call of [sendLog] spelled out.
    [sendLog] awaits nothing, so a call runs to its end where it is made. *)
Fixpoint expand (k : nat) (t : list effect) : list effect :=
match t with
| [] => []
| SendLog level message meta :: rest =>
    (effects (sendLog toUpperCase JSON_stringify (clock k) level message meta) ++
     expand (S k) rest)%list
| e :: rest => e :: expand k rest
end.

End Trace.

End Logger.

(** ** The effect that searches when the debounced prompt changes *)

Module AutoFetch.

Import JS Normalizer Pipeline App.

Local Open Scope string_scope.

(** [String.prototype.trim] on the bytes of a string: the white space of
    [skip_ws] is removed at both ends.  A suffix that starts inside a
    character starts with a continuation byte, which begins no white
    space. *)
Fixpoint trim_end (l : list N) : list N :=
match l with
| [] => []
| c :: r => if all_ws l then [] else c :: trim_end r
end.

Definition trim (s : string) : list N := trim_end (skip_ws (code_units s)).

Section Runtime.

Variable random : nat -> number.
Variable encodeURIComponent : value -> completion string.

(** The effect on [debouncedPrompt, fetchRecommendations], in a render
    whose state is [st].  The length of the trimmed prompt is only compared
    with 0, which its bytes decide as its code units do. *)
Definition auto_fetch (st : AppState) (outcome : fetch_outcome) : H unit :=
if ToBoolean (VStr (debouncedPrompt st))
   && (0 <? List.length (trim (debouncedPrompt st)))%nat
then
  try_catch
    (fetchRecommendations random encodeURIComponent st
       (Some (debouncedPrompt st)) outcome)
    (fun e => emit (Console "error" "[AUTO FETCH ERR]"))
else ret tt.

End Runtime.

End AutoFetch.

(** ** Facts of binary64 arithmetic

    The sign of a difference, the order of numbers and the placeholder
    [Math.round(Math.random() * 2000)], from the specification of the
    operations in [SpecFloat]. *)

Module FloatFacts.

Import JS Normalizer.

Local Open Scope Z_scope.

(** *** Digits *)

Lemma digits2_pos_bounds (m : positive) :
  2 ^ (Z.pos (digits2_pos m) - 1) <= Z.pos m < 2 ^ Z.pos (digits2_pos m).
Proof.
  induction m as [ p IH | p IH | ]; cbn [digits2_pos].
  - rewrite Pos2Z.inj_succ.
    replace (Z.succ (Z.pos (digits2_pos p)) - 1) with (Z.succ (Z.pos (digits2_pos p) - 1)) by lia.
    rewrite !Z.pow_succ_r by lia. lia.
  - rewrite Pos2Z.inj_succ.
    replace (Z.succ (Z.pos (digits2_pos p)) - 1) with (Z.succ (Z.pos (digits2_pos p) - 1)) by lia.
    rewrite !Z.pow_succ_r by lia. lia.
  - cbn. lia.
Qed.

Lemma digits_below (m : positive) (k : Z) :
  Z.pos m < 2 ^ k -> Z.pos (digits2_pos m) <= k.
Proof.
  intros Hm. destruct (digits2_pos_bounds m) as [Hlo _].
  destruct (Z.le_gt_cases (Z.pos (digits2_pos m)) k) as [H | H]; [exact H|].
  exfalso.
  assert (2 ^ k <= 2 ^ (Z.pos (digits2_pos m) - 1)).
  { destruct (Z.le_gt_cases 0 k).
    - apply Z.pow_le_mono_r; lia.
    - rewrite (Z.pow_neg_r 2 k) by lia. apply Z.pow_nonneg. lia. }
  lia.
Qed.

(** *** Shifting to the right *)

Lemma shr_1_m (r : shr_record) : 0 <= shr_m r -> shr_m (shr_1 r) = shr_m r / 2.
Proof.
  destruct r as [m b s]. cbn [shr_m shr_1]. intros Hm.
  destruct m as [ | [ p | p | ] | p ]; cbn [shr_m]; try lia.
  - reflexivity.
  - apply Z.div_unique with 1; lia.
  - apply Z.div_unique with 0; lia.
  - reflexivity.
Qed.

Lemma iter_shr_1_m (p : positive) :
  forall r, 0 <= shr_m r ->
  shr_m (iter_pos shr_1 p r) = shr_m r / 2 ^ Z.pos p.
Proof.
  assert (Hdiv : forall a b c, 0 < b -> 0 < c -> a / b / c = a / (b * c))
    by (intros; apply Z.div_div; lia).
  assert (Hpos : forall a q, 0 <= a -> 0 <= a / 2 ^ Z.pos q)
    by (intros; apply Z.div_pos; [lia | apply Z.pow_pos_nonneg; lia]).
  induction p as [ p IH | p IH | ]; intros r Hr; cbn [iter_pos].
  - assert (H1 : 0 <= shr_m (shr_1 r))
      by (rewrite shr_1_m by exact Hr; apply Z.div_pos; lia).
    assert (H2 : 0 <= shr_m (iter_pos shr_1 p (shr_1 r)))
      by (rewrite IH by exact H1; apply Hpos, H1).
    rewrite IH by exact H2. rewrite IH by exact H1. rewrite shr_1_m by exact Hr.
    assert (Hp : 0 < 2 ^ Z.pos p) by (apply Z.pow_pos_nonneg; lia).
    assert (Hpow : 2 ^ Z.pos p~1 = 2 * 2 ^ Z.pos p * 2 ^ Z.pos p).
    { rewrite <- Z.mul_assoc, <- Z.pow_add_r, <- Z.pow_succ_r by lia. f_equal. lia. }
    rewrite Hpow, !Hdiv by lia. f_equal. lia.
  - assert (H2 : 0 <= shr_m (iter_pos shr_1 p r))
      by (rewrite IH by exact Hr; apply Hpos, Hr).
    rewrite IH by exact H2. rewrite IH by exact Hr.
    assert (Hp : 0 < 2 ^ Z.pos p) by (apply Z.pow_pos_nonneg; lia).
    assert (Hpow : 2 ^ Z.pos p~0 = 2 ^ Z.pos p * 2 ^ Z.pos p).
    { rewrite <- Z.pow_add_r by lia. f_equal. lia. }
    rewrite Hpow, Hdiv by lia. reflexivity.
  - rewrite shr_1_m by exact Hr. reflexivity.
Qed.

(** [shr_fexp] divides the mantissa by a power of two and raises the
    exponent by as much. *)
Lemma shr_fexp_m (m e : Z) (l : location) :
  0 <= m ->
  let n := Z.max 0 (fexp prec emax (Zdigits2 m + e) - e) in
  shr_m (fst (shr_fexp prec emax m e l)) = m / 2 ^ n /\
  snd (shr_fexp prec emax m e l) = e + n.
Proof.
  intros Hm n. subst n. unfold shr_fexp, shr.
  assert (Hr : shr_m (shr_record_of_loc m l) = m)
    by (destruct l as [ | [ | | ] ]; reflexivity).
  destruct (fexp prec emax (Zdigits2 m + e) - e) as [ | p | p ]; cbn [fst snd].
  - rewrite Hr. cbn. rewrite Z.div_1_r. split; lia.
  - rewrite iter_shr_1_m by (rewrite Hr; exact Hm). rewrite Hr.
    replace (Z.max 0 (Z.pos p)) with (Z.pos p) by lia. split; reflexivity.
  - rewrite Hr. replace (Z.max 0 (Z.neg p)) with 0 by lia.
    cbn. rewrite Z.div_1_r. split; lia.
Qed.

Lemma round_nearest_even_bounds (m : Z) (l : location) :
  m <= round_nearest_even m l <= m + 1.
Proof.
  destruct l as [ | [ | | ] ]; cbn [round_nearest_even]; try lia.
  destruct (Z.even m); lia.
Qed.

(** The two steps of [binary_round_aux] on a positive mantissa. *)
Lemma binary_round_aux_steps (s : bool) (m e : Z) (l : location) :
  0 < m ->
  exists m2 n1 n2,
    n1 = Z.max 0 (fexp prec emax (Zdigits2 m + e) - e) /\
    m / 2 ^ n1 <= m2 <= m / 2 ^ n1 + 1 /\
    n2 = Z.max 0 (fexp prec emax (Zdigits2 m2 + (e + n1)) - (e + n1)) /\
    binary_round_aux prec emax s m e l =
      match m2 / 2 ^ n2 with
      | Z0 => S754_zero s
      | Z.pos m3 =>
          if e + n1 + n2 <=? emax - prec then S754_finite s m3 (e + n1 + n2)
          else S754_infinity s
      | Z.neg _ => S754_nan
      end.
Proof.
  intros Hm. unfold binary_round_aux.
  destruct (shr_fexp_m m e l ltac:(lia)) as [H1 H1e].
  destruct (shr_fexp prec emax m e l) as [r1 e1]. cbn [fst snd] in H1, H1e.
  set (n1 := Z.max 0 (fexp prec emax (Zdigits2 m + e) - e)) in *.
  set (m2 := round_nearest_even (shr_m r1) (loc_of_shr_record r1)).
  assert (Hm2 : m / 2 ^ n1 <= m2 <= m / 2 ^ n1 + 1)
    by (rewrite <- H1; apply round_nearest_even_bounds).
  assert (Hpos : 0 <= m / 2 ^ n1)
    by (apply Z.div_pos; [lia | apply Z.pow_pos_nonneg; lia]).
  destruct (shr_fexp_m m2 e1 loc_Exact ltac:(lia)) as [H2 H2e].
  destruct (shr_fexp prec emax m2 e1 loc_Exact) as [r2 e2]. cbn [fst snd] in H2, H2e.
  exists m2, n1, (Z.max 0 (fexp prec emax (Zdigits2 m2 + (e + n1)) - (e + n1))).
  subst e1. split; [reflexivity|]. split; [exact Hm2|]. split; [reflexivity|].
  rewrite H2, H2e. reflexivity.
Qed.


(** *** No underflow to zero from an exponent that is not below [emin] *)

Lemma shifted_mantissa_positive (m : positive) (e : Z) :
  SpecFloat.emin prec emax <= e ->
  1 <= Z.pos m / 2 ^ Z.max 0 (fexp prec emax (Zdigits2 (Z.pos m) + e) - e).
Proof.
  intros He. cbn [Zdigits2].
  destruct (digits2_pos_bounds m) as [Hlo _].
  set (D := Z.pos (digits2_pos m)) in *.
  set (n := Z.max 0 (fexp prec emax (D + e) - e)).
  assert (Hn : 0 <= n <= D - 1).
  { subst n. unfold fexp, SpecFloat.emin, prec, emax in *. subst D. lia. }
  assert (Hp : 0 < 2 ^ n) by (apply Z.pow_pos_nonneg; lia).
  assert (Hle : 2 ^ n <= 2 ^ (D - 1)) by (apply Z.pow_le_mono_r; lia).
  apply Z.div_le_lower_bound; lia.
Qed.

Definition signed (s : bool) (x : spec_float) : Prop :=
x = S754_infinity s \/ exists m e, x = S754_finite s m e.

Lemma binary_round_aux_signed (s : bool) (m : positive) (e : Z) (l : location) :
  SpecFloat.emin prec emax <= e -> signed s (binary_round_aux prec emax s (Z.pos m) e l).
Proof.
  intros He.
  destruct (binary_round_aux_steps s (Z.pos m) e l ltac:(lia))
    as (m2 & n1 & n2 & Hn1 & Hm2 & Hn2 & ->).
  pose proof (shifted_mantissa_positive m e He) as H1. rewrite <- Hn1 in H1.
  destruct m2 as [ | m2 | m2 ]; try lia.
  assert (He1 : SpecFloat.emin prec emax <= e + n1) by lia.
  pose proof (shifted_mantissa_positive m2 (e + n1) He1) as H2. rewrite <- Hn2 in H2.
  destruct (Z.pos m2 / 2 ^ n2) as [ | m3 | m3 ]; try lia.
  destruct (_ <=? _); [right; eexists; eexists; reflexivity | left; reflexivity].
Qed.

Lemma binary_round_aux_sign_kept (s : bool) (m : positive) (e : Z) (l : location) :
  match binary_round_aux prec emax s (Z.pos m) e l with
  | S754_zero s' | S754_infinity s' | S754_finite s' _ _ => s' = s
  | S754_nan => True
  end.
Proof.
  destruct (binary_round_aux_steps s (Z.pos m) e l ltac:(lia))
    as (m2 & n1 & n2 & _ & _ & _ & ->).
  destruct (m2 / 2 ^ n2); [reflexivity | | exact I].
  destruct (_ <=? _); reflexivity.
Qed.

Lemma shl_align_exponent (m : positive) (e e' : Z) :
  SpecFloat.emin prec emax <= e -> SpecFloat.emin prec emax <= e' ->
  SpecFloat.emin prec emax <= snd (shl_align m e e').
Proof.
  intros He He'. unfold shl_align. destruct (e' - e); assumption.
Qed.

Lemma pos_iter_xO (m d : positive) : Z.pos (Pos.iter xO m d) = Z.pos m * 2 ^ Z.pos d.
Proof.
  rewrite (Pos.iter_swap_gen _ _ Z.pos xO (Z.mul 2)) by reflexivity.
  change (Pos.iter (Z.mul 2) (Z.pos m) d) with (Z.shiftl (Z.pos m) (Z.pos d)).
  apply Z.shiftl_mul_pow2. lia.
Qed.

Lemma shl_align_value (m : positive) (e e' : Z) :
  e' <= e -> Z.pos (fst (shl_align m e e')) = Z.pos m * 2 ^ (e - e').
Proof.
  intros He. unfold shl_align. destruct (e' - e) as [ | d | d ] eqn:Ed; cbn [fst].
  - replace (e - e') with 0 by lia. lia.
  - lia.
  - rewrite pos_iter_xO. f_equal. f_equal. lia.
Qed.

(** Below zero. *)
Definition negative (x : spec_float) : bool :=
match x with
| S754_infinity true | S754_finite true _ _ => true
| _ => false
end.

Lemma SFltb_zero (x : spec_float) : SFltb x (S754_zero false) = negative x.
Proof. destruct x as [ s | s | | s m e ]; try destruct s; reflexivity. Qed.

Lemma binary_normalize_negative (d e : Z) :
  SpecFloat.emin prec emax <= e ->
  negative (binary_normalize prec emax d e false) = (d <? 0).
Proof.
  intros He. destruct d as [ | m | m ]; [reflexivity | | ]; cbn [binary_normalize Z.ltb Z.compare];
    unfold binary_round.
  - destruct (shl_align m e _) as [mz ez].
    pose proof (binary_round_aux_sign_kept false mz ez loc_Exact) as H.
    destruct (binary_round_aux _ _ _ _ _ _) as [ s | s | | s m3 e3 ]; try subst s; reflexivity.
  - pose proof (shl_align_exponent m e (fexp prec emax (Z.pos (digits2_pos m) + e)) He
                  ltac:(unfold fexp; lia)) as Hez.
    destruct (shl_align m e _) as [mz ez]. cbn [snd] in Hez.
    destruct (binary_round_aux_signed true mz ez loc_Exact Hez) as [-> | (m3 & e3 & ->)];
      reflexivity.
Qed.

(** *** Canonical numbers *)

Lemma canonical_digits (m : positive) (e : Z) :
  canonical_mantissa prec emax m e = true ->
  SpecFloat.emin prec emax <= e /\ Z.pos (digits2_pos m) <= prec /\
  (SpecFloat.emin prec emax < e -> Z.pos (digits2_pos m) = prec).
Proof.
  unfold canonical_mantissa, fexp, SpecFloat.emin, prec, emax. rewrite Z.eqb_eq. lia.
Qed.

Lemma valid_finite (s : bool) (m : positive) (e : Z) :
  SpecFloat.valid_binary prec emax (S754_finite s m e) = true ->
  canonical_mantissa prec emax m e = true.
Proof. cbn [SpecFloat.valid_binary]. unfold bounded. intros H. apply andb_prop in H. apply H. Qed.

(** The order of two canonical numbers of the same sign is that of their
    exponents, and of their mantissas when the exponents are the same. *)
Lemma aligned_compare (mx my : positive) (ex ey : Z) :
  canonical_mantissa prec emax mx ex = true ->
  canonical_mantissa prec emax my ey = true ->
  let ez := Z.min ex ey in
  (Z.pos (fst (shl_align mx ex ez)) ?= Z.pos (fst (shl_align my ey ez))) =
  match ex ?= ey with
  | Lt => Lt
  | Gt => Gt
  | Eq => Pos.compare_cont Eq mx my
  end.
Proof.
  intros Hx Hy ez. subst ez.
  apply canonical_digits in Hx, Hy.
  destruct Hx as (Hxe & Hxd & Hxn), Hy as (Hye & Hyd & Hyn).
  destruct (digits2_pos_bounds mx) as [Hxlo Hxhi].
  destruct (digits2_pos_bounds my) as [Hylo Hyhi].
  rewrite !shl_align_value by lia.
  assert (Hbig : forall (a b : positive) (k : Z),
            Z.pos (digits2_pos a) <= prec -> Z.pos (digits2_pos b) = prec -> 0 < k ->
            Z.pos a < Z.pos b * 2 ^ k).
  { intros a b k Ha Hb Hk.
    destruct (digits2_pos_bounds a) as [_ Hahi].
    destruct (digits2_pos_bounds b) as [Hblo _].
    rewrite Hb in Hblo.
    assert (2 ^ Z.pos (digits2_pos a) <= 2 ^ prec) by (apply Z.pow_le_mono_r; lia).
    assert (2 * 2 ^ (prec - 1) = 2 ^ prec)
      by (rewrite <- Z.pow_succ_r by (unfold prec; lia); f_equal; lia).
    assert (2 ^ 1 <= 2 ^ k) by (apply Z.pow_le_mono_r; lia).
    change (2 ^ 1) with 2 in *. nia. }
  destruct (Z.compare_spec ex ey) as [E | E | E].
  - subst ey. rewrite Z.min_id, Z.sub_diag, !Z.mul_1_r. reflexivity.
  - rewrite Z.min_l, Z.sub_diag, Z.mul_1_r by lia.
    apply Z.compare_lt_iff, Hbig; [exact Hxd | apply Hyn; lia | lia].
  - rewrite Z.min_r, Z.sub_diag, Z.mul_1_r by lia.
    apply Z.compare_gt_iff, Hbig; [exact Hyd | apply Hxn; lia | lia].
Qed.

(** *** The sign of a difference *)

Lemma SFsub_negative (x y : spec_float) :
  SpecFloat.valid_binary prec emax x = true -> SpecFloat.valid_binary prec emax y = true ->
  SFltb (SFsub prec emax x y) (S754_zero false) = SFltb x y.
Proof.
  intros Hx Hy. rewrite SFltb_zero.
  destruct x as [ sx | sx | | sx mx ex ], y as [ sy | sy | | sy my ey ];
    try (destruct sx; try destruct sy; reflexivity);
    try (destruct sy; reflexivity); try reflexivity.
  apply valid_finite in Hx, Hy.
  cbn [SFsub].
  rewrite binary_normalize_negative
    by (apply canonical_digits in Hx, Hy; lia).
  pose proof (aligned_compare mx my ex ey Hx Hy) as Hc. cbv zeta in Hc.
  unfold SFltb. cbn [SFcompare].
  set (X := Z.pos (fst (shl_align mx ex (Z.min ex ey)))) in *.
  set (Y := Z.pos (fst (shl_align my ey (Z.min ex ey)))) in *.
  assert (HX : 0 < X) by (subst X; lia).
  assert (HY : 0 < Y) by (subst Y; lia).
  destruct sx, sy; cbn [cond_Zopp].
  - (* both negative *)
    replace (- X - - Y <? 0) with (Y <? X) by (apply Bool.eq_true_iff_eq; rewrite !Z.ltb_lt; lia).
    unfold Z.ltb. rewrite (Z.compare_antisym X Y), Hc.
    destruct (ex ?= ey), (Pos.compare_cont Eq mx my); reflexivity.
  - apply Z.ltb_lt. lia.
  - apply Z.ltb_ge. lia.
  - replace (X - Y <? 0) with (X <? Y) by (apply Bool.eq_true_iff_eq; rewrite !Z.ltb_lt; lia).
    unfold Z.ltb. rewrite Hc.
    destruct (ex ?= ey), (Pos.compare_cont Eq mx my); reflexivity.
Qed.

(** [a - b < 0] exactly when [a < b], for all numbers. *)
Lemma sub_negative (a b : float) :
  PrimFloat.ltb (PrimFloat.sub a b) PrimFloat.zero = PrimFloat.ltb a b.
Proof.
  rewrite !ltb_spec, sub_spec.
  exact (SFsub_negative _ _ (Prim2SF_valid a) (Prim2SF_valid b)).
Qed.

(** *** The order of numbers *)

Lemma SFcompare_refl (x : spec_float) :
  x <> S754_nan -> SFcompare x x = Some Eq.
Proof.
  destruct x as [ s | s | | s m e ]; intros Hx; try (destruct s; reflexivity);
    [contradiction|].
  cbn [SFcompare]. rewrite Z.compare_refl.
  change (Pos.compare_cont Eq m m) with (Pos.compare m m).
  rewrite Pos.compare_refl. destruct s; reflexivity.
Qed.

Lemma is_nan_spec (x : float) : is_nan x = true <-> Prim2SF x = S754_nan.
Proof.
  unfold is_nan. rewrite negb_true_iff, FloatAxioms.eqb_spec. unfold SFeqb.
  split.
  - intros H. destruct (Prim2SF x) eqn:E; try reflexivity;
      rewrite SFcompare_refl in H by discriminate; discriminate.
  - intros ->. reflexivity.
Qed.

Ltac order_cases :=
  repeat match goal with
         | |- context [Z.compare ?a ?b] => destruct (Z.compare_spec a b); subst
         end;
  try discriminate; try reflexivity; try lia;
  repeat match goal with
         | |- context [Pos.compare_cont Eq ?a ?b] =>
             change (Pos.compare_cont Eq a b) with (Pos.compare a b);
             destruct (Pos.compare_spec a b); subst
         end;
  cbn [CompOpp]; try discriminate; try reflexivity; try lia.

Lemma SFltb_asym (x y : spec_float) : SFltb x y = true -> SFltb y x = false.
Proof.
  unfold SFltb.
  destruct x as [ sx | sx | | sx mx ex ], y as [ sy | sy | | sy my ey ];
    try destruct sx; try destruct sy; cbn [SFcompare];
    try discriminate; try reflexivity; order_cases.
Qed.



Lemma ltb_asym (a b : float) : PrimFloat.ltb a b = true -> PrimFloat.ltb b a = false.
Proof. rewrite !ltb_spec. apply SFltb_asym. Qed.



Lemma ltb_irrefl (a : float) : PrimFloat.ltb a a = false.
Proof.
  destruct (PrimFloat.ltb a a) eqn:E; [|reflexivity].
  rewrite (ltb_asym a a E) in E. discriminate.
Qed.




Lemma SFleb_trans (x y z : spec_float) :
  SFleb x y = true -> SFleb y z = true -> SFleb x z = true.
Proof.
  unfold SFleb.
  destruct x as [ sx | sx | | sx mx ex ], y as [ sy | sy | | sy my ey ],
           z as [ sz | sz | | sz mz ez ];
    try destruct sx; try destruct sy; try destruct sz; cbn [SFcompare];
    try discriminate; try reflexivity; order_cases.
Qed.

Lemma leb_trans (a b c : float) :
  PrimFloat.leb a b = true -> PrimFloat.leb b c = true -> PrimFloat.leb a c = true.
Proof. rewrite !leb_spec. apply SFleb_trans. Qed.

Lemma leb_not_nan (a b : float) :
  PrimFloat.leb a b = true -> is_nan a = false /\ is_nan b = false.
Proof.
  rewrite leb_spec. intros H.
  split; apply not_true_is_false; intros E; apply is_nan_spec in E;
    rewrite E in H; [|destruct (Prim2SF a)]; discriminate.
Qed.

(** *** [Math.round(Math.random() * 2000)] *)

Lemma two_thousand : Prim2SF 2000%float = S754_finite false 8796093022208000 (-42).
Proof. reflexivity. Qed.

Lemma one_spec : Prim2SF 1%float = S754_finite false 4503599627370496 (-52).
Proof. reflexivity. Qed.

(** The integers from 0 to 2000 as numbers. *)
Definition small_integer_ok (k : nat) : bool :=
let x := of_Z (Z.of_nat k) in
PrimFloat.Leibniz.eqb (number_or_zero x) x && PrimFloat.leb PrimFloat.zero x &&
PrimFloat.Leibniz.eqb (Math_round x) x.

Lemma small_integers : forallb small_integer_ok (seq 0 2001) = true.
Proof. vm_compute. reflexivity. Qed.

Lemma small_integer (n : Z) :
  0 <= n <= 2000 ->
  number_or_zero (of_Z n) = of_Z n /\ PrimFloat.leb PrimFloat.zero (of_Z n) = true /\
  Math_round (of_Z n) = of_Z n.
Proof.
  intros Hn. pose proof small_integers as H. rewrite forallb_forall in H.
  specialize (H (Z.to_nat n)). rewrite in_seq in H. specialize (H ltac:(lia)).
  unfold small_integer_ok in H. rewrite Z2Nat.id in H by lia.
  apply andb_prop in H. destruct H as [H H3]. apply andb_prop in H. destruct H as [H1 H2].
  apply FloatAxioms.Leibniz.eqb_spec in H1, H3. auto.
Qed.

(** A number of [0, 1) is a zero or a mantissa below [2 ^ -e]. *)
Lemma unit_interval (r : float) :
  PrimFloat.leb PrimFloat.zero r = true -> PrimFloat.ltb r 1 = true ->
  (exists s, Prim2SF r = S754_zero s) \/
  (exists m e, Prim2SF r = S754_finite false m e /\ e < 0 /\ Z.pos m < 2 ^ (- e)).
Proof.
  rewrite leb_spec, ltb_spec, one_spec.
  pose proof (Prim2SF_valid r) as Hv.
  change (Prim2SF PrimFloat.zero) with (S754_zero false).
  destruct (Prim2SF r) as [ s | s | | s m e ].
  - intros _ _. left. exists s. reflexivity.
  - destruct s; intros H1 H2; discriminate.
  - intros H; discriminate.
  - unfold SFleb, SFltb. cbn [SFcompare]. destruct s; [intros H; discriminate|].
    intros _ H. right. exists m, e. split; [reflexivity|].
    apply valid_finite, canonical_digits in Hv. destruct Hv as (_ & Hd & _).
    destruct (digits2_pos_bounds m) as [_ Hhi].
    assert (Hp : 2 ^ Z.pos (digits2_pos m) <= 2 ^ 53) by (apply Z.pow_le_mono_r; unfold prec in Hd; lia).
    destruct (Z.compare_spec e (-52)) as [E | E | E]; try discriminate.
    + subst e. split; [lia|].
      destruct (Pos.compare_cont Eq m 4503599627370496) eqn:Ec; try discriminate.
      replace (2 ^ (- -52)) with 4503599627370496 by reflexivity.
      exact Ec.
    + split; [lia|].
      assert (Hq : 2 ^ 53 <= 2 ^ (- e)) by (apply Z.pow_le_mono_r; lia).
      revert Hhi Hp Hq. generalize (2 ^ 53) (2 ^ (- e)) (2 ^ Z.pos (digits2_pos m)).
      intros. lia.
Qed.

Lemma round_half_up_bounds (m : positive) (e : Z) :
  e < 0 -> Z.pos m <= 2000 * 2 ^ (- e) -> 0 <= round_half_up false m e <= 2000.
Proof.
  intros He Hm. unfold round_half_up.
  assert (Hd : 0 < 2 ^ (- e)) by (apply Z.pow_pos_nonneg; lia).
  set (den := 2 ^ (- e)) in *.
  split.
  - apply Z.div_pos; lia.
  - apply Z.lt_succ_r, Z.div_lt_upper_bound; lia.
Qed.

(** The product of a number of [0, 1) and 2000 is a zero or a number with a
    negative exponent that is at most 2000. *)
Lemma scaled_draw (r : float) :
  PrimFloat.leb PrimFloat.zero r = true -> PrimFloat.ltb r 1 = true ->
  (exists s, Prim2SF (PrimFloat.mul r 2000) = S754_zero s) \/
  (exists m e, Prim2SF (PrimFloat.mul r 2000) = S754_finite false m e /\
               e < 0 /\ Z.pos m <= 2000 * 2 ^ (- e)).
Proof.
  intros H0 H1. rewrite mul_spec, two_thousand. unfold SF64mul.
  destruct (unit_interval r H0 H1) as [[s ->] | (m & e & -> & He & Hm)].
  - left. exists (xorb s false). reflexivity.
  - cbn [SFmul xorb].
    destruct (binary_round_aux_steps false (Z.pos (m * 8796093022208000)) (e + -42)
                loc_Exact eq_refl)
      as (m2 & n1 & n2 & Hn1 & Hm2 & Hn2 & ->).
    set (M := Z.pos (m * 8796093022208000)) in *.
    set (E := e + -42) in *.
    assert (HM : M < 2000 * 2 ^ (- E)).
    { subst M E. rewrite Pos2Z.inj_mul.
      replace (- (e + -42)) with (- e + 42) by lia.
      rewrite Z.pow_add_r by lia. change (2 ^ 42) with 4398046511104. lia. }
    assert (Hpow : forall k, 0 <= k -> 2000 * 2 ^ k < 2 ^ (11 + k)).
    { intros k Hk. rewrite Z.pow_add_r by lia. change (2 ^ 11) with 2048.
      assert (0 < 2 ^ k) by (apply Z.pow_pos_nonneg; lia). lia. }
    assert (Hsplit : forall a b, 0 <= a -> 0 <= b -> 2 ^ (a + b) = 2 ^ a * 2 ^ b)
      by (intros; apply Z.pow_add_r; lia).
    assert (Hn1' : 0 <= n1 /\ E + n1 <= -42).
    { assert (HD : Zdigits2 M <= 11 - E).
      { subst M. cbn [Zdigits2]. apply digits_below.
        replace (11 - E) with (11 + - E) by lia.
        specialize (Hpow (- E) ltac:(lia)). fold M. lia. }
      unfold fexp, SpecFloat.emin, prec, emax in Hn1. lia. }
    set (e1 := E + n1) in *.
    assert (Hp1 : 0 < 2 ^ n1) by (apply Z.pow_pos_nonneg; lia).
    assert (Hm1 : M / 2 ^ n1 < 2000 * 2 ^ (- e1)).
    { apply Z.div_lt_upper_bound; [exact Hp1|].
      replace (- E) with (n1 + - e1) in HM by lia.
      rewrite Hsplit in HM by lia. lia. }
    assert (Hm1' : 0 <= M / 2 ^ n1) by (apply Z.div_pos; lia).
    assert (Hm2' : 0 <= m2 <= 2000 * 2 ^ (- e1)) by lia.
    assert (Hn2' : 0 <= n2 /\ e1 + n2 <= -42).
    { assert (HD : Zdigits2 m2 <= 11 - e1).
      { destruct m2 as [ | p2 | p2 ]; [cbn [Zdigits2]; lia | | lia].
        cbn [Zdigits2]. apply digits_below.
        replace (11 - e1) with (11 + - e1) by lia.
        specialize (Hpow (- e1) ltac:(lia)). lia. }
      unfold fexp, SpecFloat.emin, prec, emax in Hn2. lia. }
    set (e3 := e1 + n2) in *.
    assert (Hp2 : 0 < 2 ^ n2) by (apply Z.pow_pos_nonneg; lia).
    assert (Hm3 : m2 / 2 ^ n2 <= 2000 * 2 ^ (- e3)).
    { apply Z.lt_succ_r, Z.div_lt_upper_bound; [exact Hp2|].
      replace (- e1) with (n2 + - e3) in Hm2' by lia.
      rewrite Hsplit in Hm2' by lia. nia. }
    destruct (m2 / 2 ^ n2) as [ | m3 | m3 ] eqn:E3.
    + left. exists false. reflexivity.
    + right. exists m3, e3.
      replace (E + n1 + n2) with e3 by (subst e3 e1; lia).
      replace (e3 <=? emax - prec) with true
        by (symmetry; apply Z.leb_le; unfold emax, prec; lia).
      split; [reflexivity|]. split; [lia | exact Hm3].
    + assert (0 <= m2 / 2 ^ n2) by (apply Z.div_pos; lia). lia.
Qed.

(** The placeholder is an integer from 0 to 2000 whenever the draw lies in
    [0, 1). *)
Lemma placeholder_integer (r : float) :
  PrimFloat.leb PrimFloat.zero r = true -> PrimFloat.ltb r 1 = true ->
  exists n, 0 <= n <= 2000 /\
            number_or_zero (Math_round (PrimFloat.mul r 2000)) = of_Z n.
Proof.
  intros H0 H1. set (y := PrimFloat.mul r 2000).
  destruct (scaled_draw r H0 H1) as [[s Hy] | (m & e & Hy & He & Hm)]; fold y in Hy.
  - exists 0. split; [lia|].
    unfold Math_round. rewrite Hy.
    rewrite <- (SF2Prim_Prim2SF y), Hy. destruct s; reflexivity.
  - pose proof (round_half_up_bounds m e He Hm) as Hn.
    unfold Math_round. rewrite Hy.
    replace (0 <=? e) with false by (symmetry; apply Z.leb_gt; lia).
    destruct (Z.eqb_spec (round_half_up false m e) 0) as [E | E].
    + exists 0. split; [lia | reflexivity].
    + exists (round_half_up false m e). split; [exact Hn|].
      apply small_integer. exact Hn.
Qed.

End FloatFacts.

(** ** Properties of the price-range mapper *)

Module PriceRangeFacts.

Import JS PriceRange.

Local Open Scope Z_scope.

Lemma slider_values (p : Z) :
  0 <= p <= 100 -> In p (map Z.of_nat (seq 0 101)).
Proof.
  intros Hp. apply in_map_iff. exists (Z.to_nat p). split; [lia|].
  apply in_seq. lia.
Qed.

Ltac each_slider_value H :=
  apply slider_values in H; cbn [seq map Z.of_nat Pos.of_succ_nat Pos.succ] in H;
  repeat (destruct H as [<- | H]; [vm_compute; repeat split; congruence|]);
  destruct H.

(** The exact formula has a closed form on the slider's domain. *)
Lemma spec_closed_form (p : Z) :
  0 <= p <= 100 ->
  spec_min p = 19750 + 400 * (100 - p) /\
  spec_max p = Z.min 100000 (20250 + 800 * (100 - p)).
Proof.
  intros Hp. each_slider_value Hp.
Qed.

(** C1: for every integer priceImportance in 0..100 the mapper, evaluated in
    binary64 arithmetic as the browser does, returns exactly the pair
    [max(0, round(center - span/2)), min(100000, round(center + span/2))]
    of the specification's formula read over the rationals, and that pair
    satisfies 0 <= min <= max <= 100000. *)
Theorem priceRange_of_exact (p : Z) :
  0 <= p <= 100 ->
  priceRange_of (of_Z p) = (of_Z (spec_min p), of_Z (spec_max p)) /\
  0 <= spec_min p /\ spec_min p <= spec_max p /\ spec_max p <= 100000.
Proof.
  intros Hp. each_slider_value Hp.
Qed.

Lemma priceRange_of_exact_witness :
  0 <= 30 <= 100 /\
  priceRange_of (of_Z 30) = (of_Z (spec_min 30), of_Z (spec_max 30)) /\
  0 <= spec_min 30 /\ spec_min 30 <= spec_max 30 /\ spec_max 30 <= 100000.
Proof.
  split; [lia | apply (priceRange_of_exact 30); lia].
Defined.

Example priceRange_slider_30 :
  priceRange_of 30%float = (47750%float, 76250%float).
Proof. vm_compute. reflexivity. Qed.

End PriceRangeFacts.

(** ** Properties of the normalizer *)

Module NormalizerFacts.

Import JS Normalizer.

Local Open Scope string_scope.

(** The price rule as the specification words it: a string is parsed after
    stripping and kept when the result is finite. *)
Definition is_finite (n : number) : bool := negb (is_nan n || is_infinity n).

Definition spec_price (v : value) : option number :=
match v with
| VNum n => Some n
| VStr s =>
    let n := StringToNumber (keep is_digit_or_dot s) in
    if is_finite n then Some n else None
| _ => None
end.

(** What the code computes instead. *)
Definition code_price (v : value) : option number :=
match v with
| VNum n => Some n
| VStr s =>
    let n := StringToNumber (keep is_digit_or_dot s) in
    if is_nan n || is_zero n then None else Some n
| _ => None
end.

Lemma ToNumber_string (s : string) : ToNumber (VStr s) = Normal (StringToNumber s).
Proof. reflexivity. Qed.

Lemma number_or_zero_not_nan (n : number) : is_nan (number_or_zero n) = false.
Proof.
  unfold number_or_zero, truthy_number.
  destruct (is_nan n) eqn:E; simpl; [reflexivity|].
  destruct (is_zero n); simpl; [reflexivity | exact E].
Qed.

Lemma number_or_zero_of_nan (n : number) :
  is_nan n = true -> number_or_zero n = PrimFloat.zero.
Proof.
  intros E. unfold number_or_zero, truthy_number. rewrite E. reflexivity.
Qed.

Lemma parsedPrice_eval (v : value) : parsedPrice v = Normal (code_price v).
Proof.
  destruct v as [ | | b | n | s | items | fields ]; try reflexivity.
  - destruct b; reflexivity.
  - destruct s as [ | c s ]; [reflexivity|].
    cbn [parsedPrice ToBoolean typeof String.eqb negb andb replace_non_digit_dot].
    rewrite ToNumber_string. unfold number_or_null, truthy_number, code_price.
    destruct (is_nan _ || is_zero _); reflexivity.
Qed.

(** C3, amended: a number is kept as it is; a string is stripped of every
    character that is not a digit or a decimal point and parsed, and the
    parsed number is the price unless it is NaN or zero, in which case the
    price is absent; a value of any other type has no price; the parse
    never throws.  The result is the one the specification words whenever
    the parsed number is neither zero nor infinite. *)
Theorem parsedPrice_is_code_price (v : value) :
  parsedPrice v = Normal (code_price v) /\
  (forall n, v = VNum n -> parsedPrice v = Normal (Some n)) /\
  (forall s, v = VStr s ->
     let n := StringToNumber (keep is_digit_or_dot s) in
     parsedPrice v = Normal (if is_nan n || is_zero n then None else Some n) /\
     (is_zero n = false -> is_infinity n = false ->
      parsedPrice v = Normal (spec_price v))) /\
  (typeof v <> "number" -> typeof v <> "string" -> parsedPrice v = Normal None).
Proof.
  split; [apply parsedPrice_eval|]. split; [|split].
  - intros n ->. reflexivity.
  - intros s -> n.
    pose proof (parsedPrice_eval (VStr s)) as Hp. cbn [code_price] in Hp. fold n in Hp.
    split; [exact Hp|]. intros Hz Hi. rewrite Hp. cbn [spec_price]. fold n.
    unfold is_finite. rewrite Hz, Hi, !orb_false_r.
    destruct (is_nan n); reflexivity.
  - intros Hn Hs. rewrite parsedPrice_eval.
    destruct v; try reflexivity; exfalso; [apply Hn | apply Hs]; reflexivity.
Qed.

(** A price string of 310 digits: its value exceeds every finite number. *)
Definition long_price : string :=
String "1" (string_of_list_ascii (repeat "0"%char 309)).

(** C3 as stated fails: the string ["0"] parses to the finite number 0,
    which the specification keeps and the code drops; a string of 310
    digits parses to Infinity, which the specification drops and the code
    keeps. *)
Lemma parsedPrice_drops_zero :
  spec_price (VStr "0") = Some PrimFloat.zero /\
  parsedPrice (VStr "0") = Normal None /\
  parsedPrice (VStr "0") <> Normal (spec_price (VStr "0")) /\
  spec_price (VStr long_price) = None /\
  parsedPrice (VStr long_price) = Normal (Some PrimFloat.infinity).
Proof.
  repeat split; try (vm_compute; reflexivity).
  vm_compute. discriminate.
Qed.

Example price_with_currency_sign :
  parsedPrice (VStr "₹1,299") = Normal (Some 1299%float).
Proof. vm_compute. reflexivity. Qed.

Example price_without_digits :
  parsedPrice (VStr "free") = Normal None.
Proof. vm_compute. reflexivity. Qed.

(** *** One element *)

Section Elements.

Variable random : nat -> number.

(** The values [Number] is applied to convert to a primitive. *)
Definition coercible (p : value) : bool :=
to_primitive_ok (source_score p) && to_primitive_ok (source_reviews p).

(** The number of draws an element takes. *)
Definition draws (p : value) : nat := if nullish (source_reviews p) then 1 else 0.

(** The value [Number] is applied to for the review count. *)
Definition reviews_operand (k : nat) (p : value) : value :=
if nullish (source_reviews p) then VNum (Math_round (PrimFloat.mul (random k) 2000))
else source_reviews p.

Definition element_of (idx k : nat) (p : value) : Product :=
{| asin := asin_of idx p;
   title := title_of p;
   score := number_or_zero (numeric_value (source_score p));
   reviews := number_or_zero (numeric_value (reviews_operand k p));
   price := code_price (source_price p);
   image := coalesce (opt_member p "image") VNull;
   raw := p |}.

Lemma normalize_element_coercible (idx k : nat) (p : value) :
  coercible p = true ->
  normalize_element random idx p k = Normal (element_of idx k p, k + draws p).
Proof.
  unfold coercible, normalize_element, bind, lift, element_of, draws, reviews_operand.
  intros Hc. apply andb_prop in Hc. destruct Hc as [Hs Hr].
  rewrite parsedPrice_eval. unfold ToNumber at 1. rewrite Hs.
  destruct (nullish (source_reviews p)) eqn:En.
  - cbn. rewrite Nat.add_1_r. reflexivity.
  - cbn. unfold ToNumber. rewrite Hr. rewrite Nat.add_0_r. reflexivity.
Qed.

Lemma normalize_element_throws (idx k : nat) (p : value) :
  coercible p = false ->
  exists e, normalize_element random idx p k = Throw e.
Proof.
  unfold coercible, normalize_element, bind, lift.
  intros Hc. rewrite parsedPrice_eval. unfold ToNumber at 1.
  destruct (to_primitive_ok (source_score p)) eqn:Hs; [|eexists; reflexivity].
  simpl in Hc.
  destruct (nullish (source_reviews p)) eqn:En.
  - destruct (source_reviews p); discriminate.
  - cbn. unfold ToNumber. rewrite Hc. eexists; reflexivity.
Qed.

(** *** The whole array *)

Fixpoint elements_from (idx k : nat) (arr : list value) : list Product :=
match arr with
| [] => []
| p :: rest => element_of idx k p :: elements_from (S idx) (k + draws p) rest
end.

Lemma map_from_coercible (arr : list value) :
  forall idx k,
  forallb coercible arr = true ->
  exists k', map_from random idx arr k = Normal (elements_from idx k arr, k').
Proof.
  induction arr as [ | p rest IH ]; intros idx k Hall.
  - exists k. reflexivity.
  - simpl in Hall. apply andb_prop in Hall. destruct Hall as [Hp Hrest].
    destruct (IH (S idx) (k + draws p) Hrest) as [k' Hk'].
    exists k'. cbn [map_from elements_from]. unfold bind at 1.
    rewrite (normalize_element_coercible idx k p Hp).
    unfold bind at 1. rewrite Hk'. reflexivity.
Qed.

Lemma map_from_throws (arr : list value) :
  forall idx k,
  forallb coercible arr = false ->
  exists e, map_from random idx arr k = Throw e.
Proof.
  induction arr as [ | p rest IH ]; intros idx k Hall; [discriminate|].
  cbn [map_from]. unfold bind at 1.
  destruct (coercible p) eqn:Hp.
  - rewrite (normalize_element_coercible idx k p Hp).
    simpl in Hall. rewrite Hp in Hall. simpl in Hall.
    destruct (IH (S idx) (k + draws p) Hall) as [e He].
    unfold bind at 1. rewrite He. exists e. reflexivity.
  - destruct (normalize_element_throws idx k p Hp) as [e He].
    rewrite He. exists e. reflexivity.
Qed.

Lemma elements_from_length (arr : list value) :
  forall idx k, List.length (elements_from idx k arr) = List.length arr.
Proof.
  induction arr as [ | p rest IH ]; intros idx k; simpl; [reflexivity|].
  rewrite IH. reflexivity.
Qed.

Lemma elements_from_nth (arr : list value) :
  forall idx k i x,
  nth_error (elements_from idx k arr) i = Some x ->
  exists p k', nth_error arr i = Some p /\ x = element_of (idx + i) k' p.
Proof.
  induction arr as [ | p rest IH ]; intros idx k i x Hx.
  - destruct i; discriminate.
  - destruct i as [ | i ]; simpl in Hx.
    + injection Hx as <-. exists p, k. rewrite Nat.add_0_r. split; reflexivity.
    + destruct (IH _ _ _ _ Hx) as (q & k' & Hq & ->).
      exists q, k'. split; [exact Hq|]. f_equal. lia.
Qed.

(** The normalizer returns exactly when every element is coercible. *)
Lemma normalize_coercible (json : value) :
  forallb coercible (ensure_array json) = true ->
  normalize random json = Normal (elements_from 0 0 (ensure_array json)).
Proof.
  intros Hall. unfold normalize, normalized.
  destruct (map_from_coercible _ 0 0 Hall) as [k' ->]. reflexivity.
Qed.

Lemma normalize_returns (json : value) (ps : list Product) :
  normalize random json = Normal ps ->
  ps = elements_from 0 0 (ensure_array json).
Proof.
  intros Hn. destruct (forallb coercible (ensure_array json)) eqn:Hall.
  - rewrite (normalize_coercible json Hall) in Hn. congruence.
  - unfold normalize, normalized in Hn.
    destruct (map_from_throws _ 0 0 Hall) as [e He]. rewrite He in Hn. discriminate.
Qed.

(** *** Defaults *)

Lemma element_of_null (idx k : nat) :
  element_of idx k VNull =
  {| asin := VStr (fallback_asin idx);
     title := VStr "Untitled product";
     score := PrimFloat.zero;
     reviews := number_or_zero (Math_round (PrimFloat.mul (random k) 2000));
     price := None;
     image := VNull;
     raw := VNull |}.
Proof. reflexivity. Qed.

Lemma element_of_empty_object (idx k : nat) :
  element_of idx k (VObj []) =
  {| asin := VStr (fallback_asin idx);
     title := VStr "Untitled product";
     score := PrimFloat.zero;
     reviews := number_or_zero (Math_round (PrimFloat.mul (random k) 2000));
     price := None;
     image := VNull;
     raw := VObj [] |}.
Proof. reflexivity. Qed.

(** On arrays whose score and review values convert to a primitive the
    normalizer is total and yields one product per element; a value that is
    not an array is read as the empty array. *)
Lemma normalize_total_on_coercible (json : value) :
  forallb coercible (ensure_array json) = true ->
  exists ps, normalize random json = Normal ps /\
             List.length ps = List.length (ensure_array json).
Proof.
  intros Hall. eexists. split; [apply normalize_coercible, Hall|].
  apply elements_from_length.
Qed.

Lemma normalize_not_array (json : value) :
  isArray json = false -> normalize random json = Normal [].
Proof. destruct json; try reflexivity. discriminate. Qed.

Lemma normalize_throws (json : value) :
  forallb coercible (ensure_array json) = false ->
  exists e, normalize random json = Throw e.
Proof.
  intros Hall. unfold normalize, normalized.
  destruct (map_from_throws _ 0 0 Hall) as [e ->]. exists e. reflexivity.
Qed.

(** C2, at the input on which it fails: the array
    [[{"score": {"toString": null}}]] is a JSON array, and [Number] applied
    to its score throws a TypeError, so the normalizer throws instead of
    yielding a product with the default score.  The normalizer throws
    exactly on the arrays that hold such a score or review value, and is
    total, with one product per element, on all others. *)
Theorem normalize_throws_on_unconvertible_score :
  normalize random (VArr [VObj [("score", VObj [("toString", VNull)])]]) =
    Throw (TypeError "Cannot convert object to primitive value") /\
  (forall json, forallb coercible (ensure_array json) = false ->
     exists e, normalize random json = Throw e) /\
  (forall json, forallb coercible (ensure_array json) = true ->
     exists ps, normalize random json = Normal ps /\
                List.length ps = List.length (ensure_array json)).
Proof.
  split; [reflexivity|]. split.
  - exact normalize_throws.
  - exact normalize_total_on_coercible.
Qed.

End Elements.

(** *** Identifiers *)

Lemma append_cancel_l (p a b : string) : p ++ a = p ++ b -> a = b.
Proof.
  induction p as [ | c p IH ]; simpl; intros E; [exact E|].
  injection E as E. exact (IH E).
Qed.

Lemma decimal_inj (i j : nat) : decimal i = decimal j -> i = j.
Proof.
  unfold decimal. intros E. apply Unsigned.to_uint_inj.
  apply (f_equal NilEmpty.uint_of_string) in E.
  rewrite !NilEmpty.usu in E. congruence.
Qed.

Lemma fallback_asin_inj (i j : nat) : fallback_asin i = fallback_asin j -> i = j.
Proof.
  unfold fallback_asin. intros E. apply decimal_inj, (append_cancel_l _ _ _ E).
Qed.

Lemma score_of_missing (p : value) :
  nullish (coalesce (opt_member p "score") (opt_member p "similarity")) = true ->
  number_or_zero (numeric_value (source_score p)) = PrimFloat.zero.
Proof.
  unfold source_score. intros E. unfold coalesce at 1. rewrite E. reflexivity.
Qed.

(** The data-model constraints the specification puts on a batch. *)
Definition is_nonnegative (n : number) : bool := PrimFloat.leb PrimFloat.zero n.

Definition is_integral (n : number) : bool := Leibniz.eqb (Math_round n) n.

Definition batch_in_data_model (ps : list Product) : Prop :=
  (forall x, In x ps ->
     is_nonnegative (score x) = true /\
     is_nonnegative (reviews x) = true /\ is_integral (reviews x) = true) /\
  NoDup (map asin ps).

(** C4 as stated fails: a negative score and a fractional review count are
    kept, and two elements that carry the same asin give two products with
    that asin. *)
Lemma batch_outside_data_model :
  exists ps,
    normalize (fun _ => PrimFloat.zero)
      (VArr [VObj [("asin", VStr "A"); ("score", VNum (-1)%float);
                   ("reviews", VNum 4.5%float)];
             VObj [("asin", VStr "A")]]) = Normal ps /\
    (exists x, In x ps /\ is_nonnegative (score x) = false) /\
    (exists x, In x ps /\ is_integral (reviews x) = false) /\
    ~ NoDup (map asin ps) /\
    ~ batch_in_data_model ps.
Proof.
  eexists. split; [vm_compute; reflexivity|].
  assert (Hdup : ~ NoDup [VStr "A"; VStr "A"]).
  { intros Hn. inversion Hn as [ | ? ? Hnot _ ]. apply Hnot. left. reflexivity. }
  split; [|split; [|split]].
  - eexists. split; [left; reflexivity | vm_compute; reflexivity].
  - eexists. split; [left; reflexivity | vm_compute; reflexivity].
  - exact Hdup.
  - intros [_ Hn]. exact (Hdup Hn).
Qed.

(** The draws made for the elements of [arr]. *)
Definition draws_of (arr : list value) : nat := list_sum (map draws arr).

Lemma elements_from_nth_draw (random : nat -> number) (arr : list value) :
  forall idx k i x,
  nth_error (elements_from random idx k arr) i = Some x ->
  exists p, nth_error arr i = Some p /\
            x = element_of random (idx + i) (k + draws_of (firstn i arr)) p.
Proof.
  induction arr as [ | p rest IH ]; intros idx k i x Hx.
  - destruct i; discriminate.
  - destruct i as [ | i ]; simpl in Hx.
    + injection Hx as <-. exists p. cbn [firstn]. unfold draws_of, list_sum. cbn [map fold_right].
      rewrite !Nat.add_0_r. split; reflexivity.
    + destruct (IH _ _ _ _ Hx) as (q & Hq & ->).
      exists q. split; [exact Hq|]. f_equal; [lia|].
      cbn [firstn]. unfold draws_of, list_sum. cbn [map fold_right]. lia.
Qed.

(** What holds of the fields of a batch normalized from [json]: the score
    and the review count of the product at index [i] as they are computed
    from the element at index [i], the placeholder of an element without a
    review count, and the asin. *)
Definition fields_as_computed (random : nat -> number) (json : value)
    (ps : list Product) : Prop :=
  (forall i x, nth_error ps i = Some x ->
     let p := raw x in
     nth_error (ensure_array json) i = Some p /\
     is_nan (score x) = false /\
     score x = number_or_zero (numeric_value (source_score p)) /\
     (forall n, source_score p = VNum n -> truthy_number n = true -> score x = n) /\
     (nullish (coalesce (opt_member p "score") (opt_member p "similarity")) = true ->
      score x = PrimFloat.zero) /\
     (is_nan (numeric_value (source_score p)) = true -> score x = PrimFloat.zero) /\
     is_nan (reviews x) = false /\
     (nullish (source_reviews p) = false ->
      reviews x = number_or_zero (numeric_value (source_reviews p))) /\
     (forall n, source_reviews p = VNum n -> truthy_number n = true -> reviews x = n) /\
     (nullish (source_reviews p) = true ->
      reviews x =
        number_or_zero
          (Math_round
             (PrimFloat.mul (random (draws_of (firstn i (ensure_array json)))) 2000))) /\
     asin x = coalesce (coalesce (opt_member p "asin") (opt_member p "ASIN"))
                (VStr (fallback_asin i))) /\
  ((forall k, PrimFloat.leb PrimFloat.zero (random k) = true /\
              PrimFloat.ltb (random k) 1 = true) ->
   forall x, In x ps -> nullish (source_reviews (raw x)) = true ->
   exists n, (0 <= n <= 2000)%Z /\ reviews x = of_Z n /\
             is_nonnegative (reviews x) = true /\ is_integral (reviews x) = true) /\
  (forall i j x y, nth_error ps i = Some x -> nth_error ps j = Some y -> i <> j ->
     nullish (coalesce (opt_member (raw x) "asin") (opt_member (raw x) "ASIN")) = true ->
     nullish (coalesce (opt_member (raw y) "asin") (opt_member (raw y) "ASIN")) = true ->
     asin x = VStr (fallback_asin i) /\ asin y = VStr (fallback_asin j) /\
     asin x <> asin y).

Lemma reviews_of_number (random : nat -> number) (k : nat) (p : value) (n : number) :
  source_reviews p = VNum n -> numeric_value (reviews_operand random k p) = n.
Proof. unfold reviews_operand. intros ->. reflexivity. Qed.

Lemma fallback_when_missing (idx : nat) (p : value) :
  nullish (coalesce (opt_member p "asin") (opt_member p "ASIN")) = true ->
  asin_of idx p = VStr (fallback_asin idx).
Proof. unfold asin_of. intros E. unfold coalesce at 1. rewrite E. reflexivity. Qed.

(** C4, amended: every product of one normalizer pass has a score and a
    review count that are numbers other than NaN, computed as
    [Number(...) || 0] from the element at its index: a source value that is
    a number other than NaN and 0 is kept as it is, negative and fractional
    values included; the score is 0 when both [score] and [similarity] are
    missing and when the value converts to NaN; when [reviews] and
    [review_count] are both absent the review count is the placeholder
    [Math.round(Math.random() * 2000)] of the element's own draw, which is
    an integer from 0 to 2000 whenever the draws lie in [0, 1); the asin is
    the element's [asin] or [ASIN] when there is one and
    ["ASINFALLBACK<i>"] otherwise, and two products whose elements carry no
    asin have different asins. *)
Theorem normalized_batch_fields (random : nat -> number) (json : value)
    (ps : list Product) :
  normalize random json = Normal ps -> fields_as_computed random json ps.
Proof.
  intros Hn. apply normalize_returns in Hn. subst ps.
  assert (Hnth : forall i x,
            nth_error (elements_from random 0 0 (ensure_array json)) i = Some x ->
            exists p, nth_error (ensure_array json) i = Some p /\
                      x = element_of random i
                            (draws_of (firstn i (ensure_array json))) p).
  { intros i x Hi. exact (elements_from_nth_draw random _ 0 0 i x Hi). }
  split; [|split].
  - intros i x Hi. destruct (Hnth i x Hi) as (p & Hp & ->).
    cbn [raw score reviews asin element_of]. cbv zeta.
    split; [exact Hp|].
    split; [apply number_or_zero_not_nan|].
    split; [reflexivity|].
    split.
    { intros n Hs Ht. rewrite Hs. cbn [numeric_value]. unfold number_or_zero.
      rewrite Ht. reflexivity. }
    split; [apply score_of_missing|].
    split; [apply number_or_zero_of_nan|].
    split; [apply number_or_zero_not_nan|].
    split.
    { intros Hr. unfold reviews_operand. rewrite Hr. reflexivity. }
    split.
    { intros n Hs Ht. rewrite (reviews_of_number random _ p n Hs).
      unfold number_or_zero. rewrite Ht. reflexivity. }
    split; [|reflexivity].
    intros Hr. unfold reviews_operand. rewrite Hr. reflexivity.
  - intros Hrandom x Hx Hr. apply In_nth_error in Hx. destruct Hx as [i Hi].
    destruct (Hnth i x Hi) as (p & _ & ->).
    cbn [raw reviews element_of] in Hr |- *.
    unfold reviews_operand. rewrite Hr. cbn [numeric_value].
    destruct (Hrandom (draws_of (firstn i (ensure_array json)))) as [H0 H1].
    destruct (FloatFacts.placeholder_integer _ H0 H1) as (n & Hn & ->).
    destruct (FloatFacts.small_integer n Hn) as (_ & Hpos & Hint).
    exists n. split; [exact Hn|]. split; [reflexivity|]. split; [exact Hpos|].
    unfold is_integral. apply FloatAxioms.Leibniz.eqb_spec. exact Hint.
  - intros i j x y Hi Hj Hij Hx Hy.
    destruct (Hnth i x Hi) as (p & _ & ->). destruct (Hnth j y Hj) as (q & _ & ->).
    cbn [raw asin element_of] in Hx, Hy |- *.
    rewrite (fallback_when_missing i p Hx), (fallback_when_missing j q Hy).
    split; [reflexivity|]. split; [reflexivity|].
    intros E. apply Hij, fallback_asin_inj. congruence.
Qed.

(** A batch with a negative score, a fractional review count and two
    elements that carry no asin. *)
Definition sample_batch : value :=
VArr [VNull;
      VObj [("asin", VStr "A1"); ("score", VNum (-1)%float); ("reviews", VNum 4.5%float)];
      VObj []].

Definition no_draw (_ : nat) : number := PrimFloat.zero.

Lemma normalized_batch_fields_witness :
  normalize no_draw sample_batch =
    Normal (elements_from no_draw 0 0 (ensure_array sample_batch)) /\
  fields_as_computed no_draw sample_batch
    (elements_from no_draw 0 0 (ensure_array sample_batch)).
Proof.
  split; [reflexivity|].
  apply (normalized_batch_fields no_draw sample_batch).
  reflexivity.
Defined.

(** With every draw equal to 0.5 the two elements of [sample_batch] that
    carry no review count get the placeholder 1000, and the two without an
    asin the fallbacks of their indices. *)
Example placeholder_of_half :
  exists ps,
    normalize (fun _ => 0.5%float) sample_batch = Normal ps /\
    map score ps = [PrimFloat.zero; (-1)%float; PrimFloat.zero] /\
    map reviews ps = [1000%float; 4.5%float; 1000%float] /\
    map asin ps = [VStr "ASINFALLBACK0"; VStr "A1"; VStr "ASINFALLBACK2"].
Proof. eexists. split; [vm_compute; reflexivity|]. repeat split. Qed.

End NormalizerFacts.

(** ** Properties of the filter *)

Module FilterFacts.

Import JS Normalizer Pipeline.

(** The price is absent for the filter: it is [null], or the number NaN
    (which the normalizer never stores for a parsed response). *)
Definition price_absent (x : Product) : Prop :=
match price x with
| None => True
| Some n => is_nan n = true
end.

(** The price is a number within the window, both bounds included. *)
Definition price_within (priceRange : number * number) (x : Product) : Prop :=
exists n, price x = Some n /\
          PrimFloat.leb (fst priceRange) n = true /\
          PrimFloat.leb n (snd priceRange) = true.

Lemma in_window_iff (priceRange : number * number) (x : Product) :
  in_window priceRange x = true <-> price_absent x \/ price_within priceRange x.
Proof.
  unfold in_window, price_absent, price_within. destruct priceRange as [minP maxP].
  cbn [fst snd]. destruct (price x) as [n|].
  - destruct (is_nan n) eqn:En; cbn [negb].
    + split; [left; reflexivity | reflexivity].
    + split.
      * intros E. apply andb_prop in E. right. exists n. tauto.
      * intros [E | (m & Em & E1 & E2)]; [discriminate|].
        injection Em as <-. rewrite E1, E2. reflexivity.
  - split; [left; exact I | reflexivity].
Qed.

(** C5: for every list of products and every price window the filter keeps
    a product if and only if its price is absent or lies in the window,
    both bounds included; a product whose price is unknown is kept whatever
    the window.  Absent is [null] for every product whose price is not the
    number NaN. *)
Theorem filtered_keeps_exactly (priceRange : number * number)
    (ps : list Product) (x : Product) :
  (In x (filtered priceRange ps) <->
   In x ps /\ (price_absent x \/ price_within priceRange x)) /\
  (In x ps -> price x = None -> In x (filtered priceRange ps)) /\
  ((forall n, price x = Some n -> is_nan n = false) ->
   (In x (filtered priceRange ps) <->
    In x ps /\ (price x = None \/ price_within priceRange x))).
Proof.
  unfold filtered. split; [|split].
  - rewrite filter_In, in_window_iff. reflexivity.
  - intros Hin Hnone. apply filter_In. split; [exact Hin|].
    apply in_window_iff. left. unfold price_absent. rewrite Hnone. exact I.
  - intros Hnum. rewrite filter_In, in_window_iff.
    assert (Habs : price_absent x <-> price x = None).
    { unfold price_absent. destruct (price x) as [n|]; [|tauto].
      rewrite (Hnum n eq_refl). split; discriminate. }
    rewrite Habs. reflexivity.
Qed.

(** *** Prices of a parsed response

    [JSON.parse] returns neither [undefined] nor NaN. *)

Fixpoint parsed (v : value) : bool :=
match v with
| VUndefined => false
| VNum n => negb (is_nan n)
| VArr items => forallb parsed items
| VObj fields => forallb (fun kv => let '(_, w) := kv in parsed w) fields
| _ => true
end.

Lemma own_property_parsed (fields : list (string * value)) (k : string) (v : value) :
  forallb (fun kv => let '(_, w) := kv in parsed w) fields = true ->
  own_property fields k = Some v -> parsed v = true.
Proof.
  induction fields as [ | [k' w] rest IH ]; simpl; intros Hall Hk; [discriminate|].
  apply andb_prop in Hall. destruct Hall as [Hw Hrest].
  destruct (String.eqb k' k).
  - injection Hk as <-. exact Hw.
  - exact (IH Hrest Hk).
Qed.

Lemma opt_member_parsed (p : value) (k : string) :
  parsed p = true ->
  nullish (opt_member p k) = true \/ parsed (opt_member p k) = true.
Proof.
  intros Hp. destruct p as [ | | b | n | s | items | fields ];
    try (left; reflexivity).
  cbn [opt_member Get]. destruct (own_property fields k) as [v|] eqn:Ek.
  - right. exact (own_property_parsed fields k v Hp Ek).
  - left. reflexivity.
Qed.

Lemma coalesce_parsed (a b : value) :
  nullish a = true \/ parsed a = true ->
  nullish b = true \/ parsed b = true ->
  nullish (coalesce a b) = true \/ parsed (coalesce a b) = true.
Proof.
  intros Ha Hb. unfold coalesce. destruct (nullish a) eqn:En; [exact Hb|].
  destruct Ha as [Ha | Ha]; [discriminate | right; exact Ha].
Qed.

Lemma source_price_parsed (p : value) :
  parsed p = true -> parsed (source_price p) = true.
Proof.
  intros Hp. unfold source_price.
  pose proof (coalesce_parsed _ _
                (coalesce_parsed _ _ (opt_member_parsed p "price" Hp)
                   (opt_member_parsed p "price_value" Hp))
                (opt_member_parsed p "pricing" Hp)) as H.
  unfold coalesce at 1. destruct (nullish _) eqn:En; [reflexivity|].
  destruct H as [H | H]; [congruence | exact H].
Qed.

Lemma code_price_not_nan (v : value) (n : number) :
  parsed v = true -> NormalizerFacts.code_price v = Some n -> is_nan n = false.
Proof.
  destruct v as [ | | b | m | s | items | fields ]; simpl; intros Hv Hn;
    try discriminate.
  - injection Hn as <-. destruct (is_nan m); [discriminate | reflexivity].
  - destruct (is_nan (StringToNumber _)) eqn:En; simpl in Hn; [discriminate|].
    destruct (is_zero _); [discriminate|]. injection Hn as <-. exact En.
Qed.


End FilterFacts.

(** ** Properties of the sort *)

Module SortFacts.

Import JS Normalizer Pipeline.

Local Open Scope string_scope.

(** [x] occurs before [y] in [l]. *)
Definition precedes {A : Type} (x y : A) (l : list A) : Prop :=
exists l1 l2 l3, l = (l1 ++ x :: l2 ++ y :: l3)%list.

Lemma precedes_rev {A : Type} (x y : A) (l : list A) :
  precedes x y l -> precedes y x (rev l).
Proof.
  intros (l1 & l2 & l3 & ->). exists (rev l3), (rev l2), (rev l1).
  rewrite rev_app_distr. cbn [rev]. rewrite rev_app_distr. cbn [rev].
  rewrite <- !app_assoc. reflexivity.
Qed.


Lemma precedes_middle {A : Type} (a x y : A) (l1 l2 : list A) :
  precedes x y (l1 ++ l2) -> precedes x y (l1 ++ a :: l2).
Proof.
  intros (m1 & m2 & m3 & E). revert m1 E.
  induction l1 as [ | z l1 IH ]; intros m1 E.
  - simpl in E. subst l2. exists (a :: m1), m2, m3. reflexivity.
  - destruct m1 as [ | w m1 ]; simpl in E; injection E as <- E.
    + assert (Hin : In y (l1 ++ a :: l2)).
      { assert (H : In y (l1 ++ l2))
          by (rewrite E; apply in_or_app; right; left; reflexivity).
        apply in_or_app. apply in_app_or in H.
        destruct H; [left | right; right]; assumption. }
      destruct (in_split _ _ Hin) as (n1 & n3 & Hy).
      exists [], n1, n3. simpl. rewrite Hy. reflexivity.
    + destruct (IH m1 E) as (n1 & n2 & n3 & Hn).
      exists (z :: n1), n2, n3. simpl. rewrite Hn. reflexivity.
Qed.

Section Stability.

Context {A : Type} (cmp : A -> A -> number).

(** The elements of [l] join [back] one after the other. *)
Definition entered (l back : list A) : list A :=
fold_left (fun back x => insert cmp x back) l back.

Lemma insert_split (x : A) (back : list A) :
  exists l1 l2,
    insert cmp x back = (l1 ++ x :: l2)%list /\ back = (l1 ++ l2)%list /\
    Forall (fun z => sorts_before cmp x z = true) l1.
Proof.
  induction back as [ | z rest IH ].
  - exists [], []. repeat split. constructor.
  - simpl. destruct (sorts_before cmp x z) eqn:Ez.
    + destruct IH as (l1 & l2 & E1 & E2 & Hall).
      exists (z :: l1), l2. rewrite E1. subst rest.
      repeat split. constructor; assumption.
    + exists [], (z :: rest). repeat split. constructor.
Qed.

Lemma insert_permutation (x : A) (back : list A) :
  Permutation (x :: back) (insert cmp x back).
Proof.
  destruct (insert_split x back) as (l1 & l2 & -> & -> & _).
  apply Permutation_middle.
Qed.

Lemma entered_permutation (l : list A) :
  forall back, Permutation (l ++ back) (entered l back).
Proof.
  induction l as [ | x rest IH ]; intros back; [reflexivity|].
  cbn [entered fold_left]. fold (entered rest (insert cmp x back)).
  rewrite <- IH, <- insert_permutation. cbn [app]. apply Permutation_middle.
Qed.

Lemma Array_sort_permutation (l : list A) : Permutation l (Array_sort cmp l).
Proof.
  unfold Array_sort. fold (entered l []). rewrite <- Permutation_rev.
  rewrite <- entered_permutation, app_nil_r. reflexivity.
Qed.

Lemma insert_keeps_order (a x y : A) (back : list A) :
  precedes x y back -> precedes x y (insert cmp a back).
Proof.
  intros Hp. destruct (insert_split a back) as (l1 & l2 & -> & E & _).
  subst back. apply precedes_middle, Hp.
Qed.

(** An element stays in front of those it does not sort before. *)
Lemma insert_in_front (x y : A) (back : list A) :
  In y back -> sorts_before cmp x y = false -> precedes x y (insert cmp x back).
Proof.
  intros Hy Hxy.
  destruct (insert_split x back) as (l1 & l2 & -> & E & Hall). subst back.
  apply in_app_or in Hy. destruct Hy as [Hy | Hy].
  - rewrite Forall_forall in Hall. rewrite (Hall y Hy) in Hxy. discriminate.
  - destruct (in_split _ _ Hy) as (n1 & n3 & ->). exists l1, n1, n3. reflexivity.
Qed.

Lemma entered_keeps_order (l : list A) (x y : A) :
  forall back, precedes x y back -> precedes x y (entered l back).
Proof.
  induction l as [ | a rest IH ]; intros back Hp; [exact Hp|].
  apply IH, insert_keeps_order, Hp.
Qed.

Lemma entered_in_front (l : list A) (x y : A) :
  forall back, In x back -> In y l -> sorts_before cmp y x = false ->
  precedes y x (entered l back).
Proof.
  induction l as [ | a rest IH ]; intros back Hx Hy Hyx; [destruct Hy|].
  cbn [entered fold_left]. fold (entered rest (insert cmp a back)).
  destruct Hy as [-> | Hy].
  - apply entered_keeps_order, insert_in_front; assumption.
  - apply IH; [|exact Hy|exact Hyx].
    apply (Permutation_in _ (insert_permutation a back)). right. exact Hx.
Qed.

Lemma entered_stable (l : list A) (x y : A) :
  forall back, precedes x y l -> sorts_before cmp y x = false ->
  precedes y x (entered l back).
Proof.
  induction l as [ | a rest IH ]; intros back Hp Hyx.
  - destruct Hp as (l1 & l2 & l3 & E). destruct l1; discriminate.
  - cbn [entered fold_left]. fold (entered rest (insert cmp a back)).
    destruct Hp as ([ | w l1 ] & l2 & l3 & E); simpl in E; injection E as <- ->.
    + apply entered_in_front; [| |exact Hyx].
      * apply (Permutation_in _ (insert_permutation a back)). left. reflexivity.
      * apply in_or_app. right. left. reflexivity.
    + apply IH; [|exact Hyx]. exists l1, l2, l3. reflexivity.
Qed.

(** Whatever the comparator, an element is never moved in front of an
    earlier element unless the comparator says it sorts before it. *)
Lemma Array_sort_stable (x y : A) (l : list A) :
  precedes x y l -> sorts_before cmp y x = false ->
  precedes x y (Array_sort cmp l).
Proof.
  intros Hp Hyx. unfold Array_sort. fold (entered l []).
  apply precedes_rev, entered_stable; assumption.
Qed.

(** *** The order of the result *)

Section Order.

(** [R later earlier] holds of the elements of the result whenever the
    comparator relates them to [R] as below, on the elements of [P]. *)
Variable R : A -> A -> Prop.
Variable P : A -> Prop.

Hypothesis before_R : forall x y, sorts_before cmp x y = true -> R y x.
Hypothesis not_before_R : forall x y, sorts_before cmp x y = false -> R x y.
Hypothesis R_through :
  forall x y w, P y -> sorts_before cmp x y = false -> R y w -> R x w.

Lemma insert_sorted (x : A) (back : list A) :
  Forall P back -> StronglySorted R back -> StronglySorted R (insert cmp x back).
Proof.
  induction back as [ | y rest IH ]; intros HP Hs.
  - repeat constructor.
  - inversion HP as [ | ? ? Py Prest ]. subst.
    inversion Hs as [ | ? ? Hrest Hy ]. subst.
    cbn [insert]. destruct (sorts_before cmp x y) eqn:Exy.
    + constructor; [exact (IH Prest Hrest)|].
      apply (Permutation_Forall (insert_permutation x rest)).
      constructor; [exact (before_R x y Exy) | exact Hy].
    + constructor; [exact Hs|].
      constructor; [exact (not_before_R x y Exy)|].
      rewrite Forall_forall in Hy |- *. intros w Hw.
      exact (R_through x y w Py Exy (Hy w Hw)).
Qed.

Lemma entered_sorted (l : list A) :
  forall back, Forall P l -> Forall P back -> StronglySorted R back ->
  StronglySorted R (entered l back).
Proof.
  induction l as [ | x rest IH ]; intros back Hl Hb Hs; [exact Hs|].
  inversion Hl as [ | ? ? Px Prest ]. subst.
  cbn [entered fold_left]. fold (entered rest (insert cmp x back)).
  apply IH; [exact Prest | | apply insert_sorted; assumption].
  apply (Permutation_Forall (insert_permutation x back)). constructor; assumption.
Qed.

Lemma strongly_sorted_precedes (l : list A) (x y : A) :
  StronglySorted R l -> precedes x y l -> R x y.
Proof.
  intros Hs (l1 & l2 & l3 & ->). induction l1 as [ | z l1 IH ].
  - simpl in Hs. inversion Hs as [ | ? ? _ Hx ]. subst.
    rewrite Forall_forall in Hx. apply Hx, in_or_app. right. left. reflexivity.
  - simpl in Hs. inversion Hs. subst. apply IH. assumption.
Qed.

Lemma Array_sort_ordered (l : list A) (x y : A) :
  Forall P l -> precedes x y (Array_sort cmp l) -> R y x.
Proof.
  intros Hl Hp. apply precedes_rev in Hp. unfold Array_sort in Hp.
  rewrite rev_involutive in Hp. fold (entered l []) in Hp.
  apply (strongly_sorted_precedes (entered l [])); [|exact Hp].
  apply entered_sorted; [exact Hl | constructor | constructor].
Qed.

End Order.

End Stability.

(** *** The comparators *)

(** The key the products are ordered by. *)
Definition sort_key (sortBy : string) (x : Product) : option number :=
if String.eqb sortBy "price" then price x
else if String.eqb sortBy "reviews" then Some (reviews x)
else Some (score x).

(** [comparefn(y, x) < 0] in terms of the keys: by price a lower price
    and a price against none, by reviews and by score a higher value. *)
Lemma sorts_before_keys (sortBy : string) (y x : Product) :
  sorts_before (comparefn sortBy) y x =
  if String.eqb sortBy "price" then
    match price y, price x with
    | Some py, Some px => PrimFloat.ltb py px
    | Some _, None => true
    | None, _ => false
    end
  else if String.eqb sortBy "reviews" then PrimFloat.ltb (reviews x) (reviews y)
  else PrimFloat.ltb (score x) (score y).
Proof.
  unfold sorts_before, comparefn.
  destruct (String.eqb sortBy "price").
  - destruct (price y) as [py|]; [|reflexivity].
    destruct (price x) as [px|]; [apply FloatFacts.sub_negative | reflexivity].
  - destruct (String.eqb sortBy "reviews"); apply FloatFacts.sub_negative.
Qed.

(** The comparator does not answer 0 for two products without a price: it
    answers 1 whenever its first argument has none. *)
Lemma comparefn_without_price (a b : Product) :
  price a = None -> comparefn "price" a b = PrimFloat.one.
Proof. intros Ha. unfold comparefn. cbn [String.eqb Ascii.eqb Bool.eqb]. rewrite Ha. reflexivity. Qed.







Lemma sorted_permutation (sortBy : string) (ps : list Product) :
  Permutation ps (sorted sortBy ps).
Proof. apply Array_sort_permutation. Qed.

(** *** Equal keys *)



Definition unpriced (name : string) : Product :=
{| asin := VStr name; title := VStr "Untitled product"; score := PrimFloat.zero;
   reviews := PrimFloat.zero; price := None; image := VNull; raw := VObj [] |}.



(** Two products without a price stay as the response has them, whatever
    the prices around them; a product with a price goes in front. *)
Example sorted_by_price_keeps_unpriced :
  let priced := {| asin := VStr "A1"; title := VStr "X"; score := 0.5%float;
                   reviews := 3%float; price := Some 1200%float; image := VNull;
                   raw := VNull |} in
  sorted "price" [unpriced "A"; unpriced "B"] = [unpriced "A"; unpriced "B"] /\
  sorted "price" [unpriced "B"; priced; unpriced "A"] =
    [priced; unpriced "B"; unpriced "A"] /\
  sorted "score" [unpriced "A"; priced; unpriced "B"] =
    [priced; unpriced "A"; unpriced "B"].
Proof. vm_compute. repeat split. Qed.

End SortFacts.

(** ** Properties of the pagination *)

Module PageFacts.

Import JS Normalizer Pipeline App.

Local Open Scope Z_scope.

Lemma totalPages_closed_form {A : Type} (products : list A) :
  totalPages products = Z.max 1 ((Z.of_nat (List.length products) + 11) / 12).
Proof.
  unfold totalPages, Qceiling, Qfloor. cbn [Qopp Qnum Qden]. f_equal.
  generalize (Z.of_nat (List.length products)). intros n.
  Z.div_mod_to_equations. lia.
Qed.

Lemma firstn_plus {A : Type} (a b : nat) (l : list A) :
  firstn (a + b) l = (firstn a l ++ firstn b (skipn a l))%list.
Proof.
  revert l. induction a as [ | a IH ]; intros l; [reflexivity|].
  destruct l as [ | x l ]; simpl.
  - rewrite firstn_nil. reflexivity.
  - rewrite IH. reflexivity.
Qed.

(** Page [i + 1] is the [i]-th run of twelve products. *)
Lemma shown_chunk {A : Type} (products : list A) (i : nat) :
  shown products (Z.of_nat (S i)) = firstn 12 (skipn (12 * i) products).
Proof.
  unfold shown, slice, PAGE_SIZE.
  replace ((Z.of_nat (S i) - 1) * 12) with (Z.of_nat (12 * i)) by lia.
  replace (Z.of_nat (S i) * 12) with (Z.of_nat (12 * i) + 12) by lia.
  destruct (Z.ltb_spec (Z.of_nat (12 * i)) 0) as [Hneg | _]; [lia|].
  destruct (Z.ltb_spec (Z.of_nat (12 * i) + 12) 0) as [Hneg | _]; [lia|].
  pose proof (length_skipn (12 * i) products) as Hlen.
  destruct (Nat.le_gt_cases (List.length products) (12 * i)) as [Hout | Hin].
  - replace (Z.to_nat (Z.min (Z.of_nat (12 * i)) (Z.of_nat (List.length products))))
      with (List.length products) by lia.
    rewrite !skipn_all2 by lia. rewrite !firstn_nil. reflexivity.
  - replace (Z.to_nat (Z.min (Z.of_nat (12 * i)) (Z.of_nat (List.length products))))
      with (12 * i)%nat by lia.
    destruct (Nat.le_gt_cases (List.length products - 12 * i) 12) as [Hshort | Hlong].
    + rewrite !firstn_all2; [reflexivity | lia | lia].
    + f_equal. lia.
Qed.

Lemma chunks_concat {A : Type} (products : list A) (m : nat) :
  List.concat (map (fun i => firstn 12 (skipn (12 * i) products)) (seq 0 m)) =
  firstn (12 * m) products.
Proof.
  induction m as [ | m IH ]; [reflexivity|].
  rewrite seq_S, map_app, concat_app, IH. cbn [map List.concat Nat.add].
  rewrite app_nil_r. replace (12 * S m)%nat with (12 * m + 12)%nat by lia.
  symmetry. apply firstn_plus.
Qed.

Lemma shown_length {A : Type} (products : list A) (page : Z) :
  (List.length (shown products page) <= 12)%nat.
Proof.
  unfold shown, slice, PAGE_SIZE. rewrite length_firstn.
  apply Nat.le_trans with (1 := Nat.le_min_l _ _).
  destruct (Z.ltb_spec ((page - 1) * 12) 0), (Z.ltb_spec (page * 12) 0); lia.
Qed.

(** C7, amended: with [totalPages = max(1, ceil(count / pageSize))] and
    page [p] showing the slice from [(p - 1) * pageSize] to [p * pageSize],
    the pages 1 to [totalPages] put end to end are the whole list, a page
    never shows more than [pageSize] products, Prev never goes below page 1
    and Next never goes above [totalPages], and from a page of the range 1
    to [totalPages] both stay inside it: Prev stays on page 1 and Next
    stays on the last page. *)
Theorem pagination_law {A : Type} (products : list A) :
  List.concat (map (shown products)
            (map Z.of_nat (seq 1 (Z.to_nat (totalPages products))))) = products /\
  (forall page, (List.length (shown products page) <= Z.to_nat PAGE_SIZE)%nat) /\
  (forall page, 1 <= prev_page page /\ next_page products page <= totalPages products) /\
  (forall page, 1 <= page <= totalPages products ->
     1 <= prev_page page <= totalPages products /\
     1 <= next_page products page <= totalPages products) /\
  prev_page 1 = 1 /\
  next_page products (totalPages products) = totalPages products.
Proof.
  split; [|split; [|split; [|split; [|split]]]].
  - rewrite <- seq_shift, !map_map.
    rewrite (map_ext _ (fun i => firstn 12 (skipn (12 * i) products)))
      by (intros i; apply shown_chunk).
    rewrite chunks_concat. apply firstn_all2.
    rewrite totalPages_closed_form.
    generalize (List.length products). intros n.
    Z.div_mod_to_equations. lia.
  - intros page. apply shown_length.
  - intros page. unfold prev_page, next_page. lia.
  - intros page Hp. unfold prev_page, next_page. lia.
  - reflexivity.
  - unfold next_page. lia.
Qed.

(** A user on page 3 of 25 products whose next search fails. *)
Definition on_page_3 : AppState :=
{| prompt := prompt initial_state;
   debouncedPrompt := debouncedPrompt initial_state;
   priceImportance := priceImportance initial_state;
   priceRange := priceRange initial_state;
   sortBy := sortBy initial_state;
   page := 3;
   products := repeat (MkProduct (VStr "A") (VStr "X") PrimFloat.one PrimFloat.one
                         None VNull VNull) 25;
   loading := false;
   trustFor := None;
   error := None |}.

Definition after_failed_search : AppState :=
run_effects on_page_3
  (effects (fetchRecommendations (fun _ => PrimFloat.zero) plain_encoding on_page_3
              None (Rejected (TypeError "Failed to fetch")))).

(** C7 as stated fails: a failed search empties the list and leaves [page]
    at 3, so [totalPages] is 1, and Prev then yields page 2, outside the
    range 1 to [totalPages]. *)
Lemma prev_page_outside_range :
  (1 <= page on_page_3 <= totalPages (products on_page_3)) /\
  products after_failed_search = [] /\
  page after_failed_search = 3 /\
  totalPages (products after_failed_search) = 1 /\
  prev_page (page after_failed_search) = 2 /\
  ~ (1 <= prev_page (page after_failed_search) <=
     totalPages (products after_failed_search)).
Proof.
  vm_compute. repeat split; try discriminate.
  intros [_ H]. apply H. reflexivity.
Qed.

Example two_pages :
  totalPages (seq 0 13) = 2 /\
  shown (seq 0 13) 1 = seq 0 12 /\ shown (seq 0 13) 2 = [12%nat] /\
  shown (seq 0 13) 3 = [].
Proof. repeat split. Qed.

Example one_page_when_empty : totalPages (@nil nat) = 1 /\ shown (@nil nat) 1 = [].
Proof. repeat split. Qed.

End PageFacts.

(** ** Properties of the recommend orchestrator *)

Module RecommendFacts.

Import JS Normalizer Pipeline App.

Local Open Scope string_scope.



Lemma or_else_nonempty (a b : string) : b <> "" -> or_else a b <> "".
Proof.
  intros Hb. unfold or_else. destruct (String.eqb_spec a ""); assumption.
Qed.



Section Lifecycle.

Variable random : nat -> number.
Variable encodeURIComponent : value -> completion string.




End Lifecycle.

End RecommendFacts.

(** ** Properties of the trust lookup and of the bundle request *)

Module WorkflowFacts.

Import JS Normalizer Pipeline App.

Local Open Scope string_scope.

Definition quiet (t : list effect) : Prop := Forall (fun e => writes_state e = false) t.

Lemma run_effects_quiet (t : list effect) (st : AppState) :
  quiet t -> run_effects st t = st.
Proof.
  unfold run_effects. intros Hq. revert st.
  induction Hq as [ | e t He _ IH ]; intros st; [reflexivity|].
  simpl. rewrite <- (IH st) at 2. f_equal.
  destruct e; try discriminate; reflexivity.
Qed.

Ltac evaluate :=
  cbn;
  repeat (match goal with
          | H : _ = _ |- _ => rewrite H
          end; cbn).

Section Trust.

Variable encodeURIComponent : value -> completion string.

(** C9, amended: [handleTrust] compares nothing.  The first effect of
    every run stores the lookup's own asin with [loading = true], and the
    last segment of every run stores it with [loading = false] and the
    lookup's result over whatever [TrustState] is active: the parsed body,
    [{error: "Invalid JSON from /api/trust"}] for a body that is not JSON,
    and [{error: message}] after a status that is not a success status, a
    rejected request or a failed encoding.  A superseded lookup that
    completes late therefore replaces the newer lookup's state. *)
Theorem handleTrust_writes_unconditionally (asin : value) (outcome : fetch_outcome)
    (st : AppState) :
  let t := effects (handleTrust encodeURIComponent asin outcome) in
  let stored := trustFor (run_effects st (last (segments t) [])) in
  let failure msg := Some (MkTrust asin false (obj [("error", VStr msg)])) in
  (exists rest, t = SetTrustFor (Some (MkTrust asin true VNull)) :: rest) /\
  (exists data, stored = Some (MkTrust asin false data)) /\
  outcome_of (handleTrust encodeURIComponent asin outcome) = Normal tt /\
  (forall enc res j,
     encodeURIComponent asin = Normal enc -> outcome = Resolved res ->
     ok res = true -> body_json res = Some j ->
     stored = Some (MkTrust asin false j)) /\
  (forall enc res,
     encodeURIComponent asin = Normal enc -> outcome = Resolved res ->
     ok res = true -> body_json res = None ->
     stored = failure "Invalid JSON from /api/trust") /\
  (forall enc res,
     encodeURIComponent asin = Normal enc -> outcome = Resolved res ->
     ok res = false ->
     stored =
       failure (or_else (match body_text res with
                         | Some text => text
                         | None => ""
                         end)
                  ("Bad response: " ++ decimal (status res)))) /\
  (forall enc e,
     encodeURIComponent asin = Normal enc -> outcome = Rejected e ->
     stored = failure (message e)) /\
  (forall e, encodeURIComponent asin = Throw e -> stored = failure (message e)).
Proof.
  cbv zeta. unfold handleTrust, bad_response, text_or_empty.
  destruct (encodeURIComponent asin) as [enc | e0] eqn:Henc;
    [ destruct outcome as [e | res];
      [ | destruct (ok res) eqn:Hok;
          [ destruct (body_json res) as [j | ] eqn:Hjson | ] ] | ];
    evaluate; repeat split; try (eexists; reflexivity); intros;
    repeat match goal with
           | H : Resolved _ = Resolved _ |- _ => injection H as H; subst
           | H : Rejected _ = Rejected _ |- _ => injection H as H; subst
           | H : @Throw string _ = Throw _ |- _ => injection H as H; subst
           end;
    try discriminate; try congruence.
Qed.

End Trust.

(** The response to a lookup that succeeds. *)
Definition trust_answer (score : number) : fetch_outcome :=
Resolved (MkResponse 200 None (Some (VObj [("trust_score", VNum score)]))).

Ltac run_left :=
  match goal with
  | |- interleaving (?s :: ?a) ?b ?t =>
      let r := eval cbv in (skipn (List.length s) t) in
      change (interleaving (s :: a) b (s ++ r)%list); apply interleaving_left
  end.

Ltac run_right :=
  match goal with
  | |- interleaving ?a (?s :: ?b) ?t =>
      let r := eval cbv in (skipn (List.length s) t) in
      change (interleaving a (s :: b) (s ++ r)%list); apply interleaving_right
  end.

Definition lookup_a : list (list effect) :=
segments (effects (handleTrust plain_encoding (VStr "A") (trust_answer 1%float))).

Definition lookup_b : list (list effect) :=
segments (effects (handleTrust plain_encoding (VStr "B") (trust_answer 2%float))).

Definition segment (n : nat) (run : list (list effect)) : list effect := nth n run [].

(** Both lookups are started, the one for ["A"] first. *)
Definition both_started : list effect := (segment 0 lookup_a ++ segment 0 lookup_b)%list.

(** The lookup for ["B"] completes. *)
Definition b_completes : list effect := (segment 1 lookup_b ++ segment 2 lookup_b)%list.

(** The lookup for ["A"] completes. *)
Definition a_completes : list effect := (segment 1 lookup_a ++ segment 2 lookup_a)%list.

(** C9 as stated fails: the lookup for ["A"] is started, then the lookup for
    ["B"]; ["B"] completes and is shown; the completion of ["A"] arrives
    last and puts the data of ["A"] back. *)
Lemma late_trust_completion_is_observed :
  interleaving lookup_a lookup_b (both_started ++ b_completes ++ a_completes)%list /\
  trustFor (run_effects initial_state both_started) =
    Some (MkTrust (VStr "B") true VNull) /\
  trustFor (run_effects initial_state (both_started ++ b_completes)%list) =
    Some (MkTrust (VStr "B") false (VObj [("trust_score", VNum 2%float)])) /\
  trustFor (run_effects initial_state (both_started ++ b_completes ++ a_completes)%list) =
    Some (MkTrust (VStr "A") false (VObj [("trust_score", VNum 1%float)])).
Proof.
  split; [|repeat split].
  vm_compute.
  run_left. run_right. run_right. run_right. run_left. run_left.
  apply interleaving_done.
Qed.

Section Bundle.

Variable ToString : value -> completion string.
Variable JSON_stringify : value -> string.
Variable JSON_parse : string -> completion value.

Definition is_notification (e : effect) : bool :=
match e with
| Alert _ => true
| _ => false
end.

(** C10: on every path of [handleGenerateBundle] (success, a status that is
    not a success status, a rejected [fetch], a body that is not JSON) no
    state setter is called, so the state is the one before the click; the
    handler completes normally and notifies the user exactly once. *)
Theorem handleGenerateBundle_frame (st st0 : AppState) (outcome : fetch_outcome) :
  let h := handleGenerateBundle ToString JSON_stringify JSON_parse st outcome in
  quiet (effects h) /\
  run_effects st0 (effects h) = st0 /\
  outcome_of h = Normal tt /\
  List.length (filter is_notification (effects h)) = 1%nat.
Proof.
  intros h.
  assert (Hq : quiet (effects h) /\ outcome_of h = Normal tt /\
               List.length (filter is_notification (effects h)) = 1%nat).
  { subst h. unfold handleGenerateBundle, text_or_empty, quiet.
    destruct outcome as [e | res]; [|destruct (ok res) eqn:Hok]; evaluate.
    - repeat split; repeat constructor.
    - destruct (body_json res) as [j|] eqn:Hjson; evaluate;
        repeat split; repeat constructor.
    - destruct (ToString _) as [msg | e2]; cbn; repeat split; repeat constructor. }
  destruct Hq as (Hq & Hn & Ha).
  repeat split; [exact Hq | apply run_effects_quiet, Hq | exact Hn | exact Ha].
Qed.

End Bundle.

End WorkflowFacts.

(** ** End-to-end scenarios *)

Module Scenarios.

Import JS Normalizer Pipeline App.

Local Open Scope string_scope.

Definition two_products : value :=
VArr [VObj [("asin", VStr "A1"); ("title", VStr "X"); ("score", VNum 0.9%float);
            ("price", VStr "1,200")];
      VObj [("asin", VStr "A2"); ("title", VStr "Y"); ("score", VNum 0.5%float)]].

Definition any_price : number * number := (PrimFloat.zero, PrimFloat.infinity).

(** Sorted by price, the product with a known price comes first, whatever
    the scores. *)
Example known_price_first (random : nat -> number) :
  exists ps,
    normalize random two_products = Normal ps /\
    map price ps = [Some 1200%float; None] /\
    map asin (sorted "price" (filtered any_price ps)) = [VStr "A1"; VStr "A2"] /\
    map asin (sorted "price" (filtered any_price (rev ps))) = [VStr "A1"; VStr "A2"].
Proof. eexists. repeat split. Qed.

(** A trust lookup answered with status 500 and the body ["server down"]. *)
Example trust_lookup_fails :
  trustFor
    (run_effects initial_state
       (effects (handleTrust plain_encoding (VStr "A1")
                   (Resolved (MkResponse 500 (Some "server down") None))))) =
  Some (MkTrust (VStr "A1") false (VObj [("error", VStr "server down")])).
Proof. reflexivity. Qed.

Definition quote : string := String (ascii_of_nat 34) EmptyString.

Definition rate_limited_body : string :=
"{" ++ quote ++ "detail" ++ quote ++ ":" ++ quote ++ "rate limited" ++ quote ++ "}".

(** A bundle request answered with status 429 and a body that parses to
    [{"detail": "rate limited"}]. *)
Example bundle_request_fails (JSON_stringify : value -> string) :
  filter WorkflowFacts.is_notification
    (effects
       (handleGenerateBundle plain_encoding JSON_stringify
          (fun _ => Normal (VObj [("detail", VStr "rate limited")]))
          initial_state
          (Resolved (MkResponse 429 (Some rate_limited_body) None)))) =
  [Alert "Bundle failed: rate limited"].
Proof. reflexivity. Qed.

End Scenarios.

(** ** Further properties of the pipeline *)

Module PipelineFacts.

Import JS Normalizer Pipeline.

Local Open Scope string_scope.

(** X1: whatever the sort key and whatever the comparator answers, the
    sorted list holds the products of the list it was given, each as often
    as before: sorting neither loses nor repeats a product, and the result
    has the same length. *)
Theorem sorted_keeps_every_product (sortBy : string) (ps : list Product) :
  Permutation ps (sorted sortBy ps) /\
  List.length (sorted sortBy ps) = List.length ps /\
  (forall x, In x (sorted sortBy ps) <-> In x ps).
Proof.
  pose proof (SortFacts.Array_sort_permutation (comparefn sortBy) ps) as Hp.
  split; [exact Hp|]. split.
  - symmetry. apply Permutation_length, Hp.
  - intros x. split; intros Hx.
    + apply (Permutation_in _ (Permutation_sym Hp) Hx).
    + apply (Permutation_in _ Hp Hx).
Qed.

(** X2: under every sort key, two products whose keys are the same number
    keep their order: the one that came first in the response still comes
    first. *)
Theorem sorted_keeps_order_of_equal_keys (sortBy : string) (x y : Product)
    (ps : list Product) (k : number) :
  SortFacts.sort_key sortBy x = Some k -> SortFacts.sort_key sortBy y = Some k ->
  SortFacts.precedes x y ps -> SortFacts.precedes x y (sorted sortBy ps).
Proof.
  intros Kx Ky Hp. apply SortFacts.Array_sort_stable; [exact Hp|].
  rewrite SortFacts.sorts_before_keys. unfold SortFacts.sort_key in Kx, Ky.
  destruct (String.eqb sortBy "price").
  - rewrite Kx, Ky. apply FloatFacts.ltb_irrefl.
  - destruct (String.eqb sortBy "reviews");
      injection Kx as ->; injection Ky as ->; apply FloatFacts.ltb_irrefl.
Qed.

Definition cheap : Product :=
MkProduct (VStr "A1") (VStr "X") 0.5%float 3%float (Some 1200%float) VNull VNull.

Definition cheap_too : Product :=
MkProduct (VStr "A2") (VStr "Y") 0.5%float 7%float (Some 1200%float) VNull VNull.

Lemma sorted_keeps_order_of_equal_keys_witness :
  SortFacts.sort_key "price" cheap = Some 1200%float /\
  SortFacts.sort_key "price" cheap_too = Some 1200%float /\
  SortFacts.precedes cheap cheap_too [cheap; cheap_too] /\
  SortFacts.precedes cheap cheap_too (sorted "price" [cheap; cheap_too]).
Proof.
  assert (Hp : SortFacts.precedes cheap cheap_too [cheap; cheap_too])
    by (exists [], [], []; reflexivity).
  split; [reflexivity|]. split; [reflexivity|]. split; [exact Hp|].
  apply (sorted_keeps_order_of_equal_keys "price" cheap cheap_too _ 1200%float);
    [reflexivity | reflexivity | exact Hp].
Defined.

(** *** Products without a price come last *)

(** X3: sorted by price, the products without a price come after all the
    products that have one: whatever follows a product without a price has
    no price either. *)
Theorem sorted_by_price_puts_unpriced_last (ps : list Product) (u p : Product) :
  SortFacts.precedes u p (sorted "price" ps) ->
  price u = None -> price p = None.
Proof.
  intros Hp.
  assert (Hnone : forall x y, price x = None ->
                  sorts_before (comparefn "price") x y = false)
    by (intros x y Hx; rewrite SortFacts.sorts_before_keys;
        cbn [String.eqb Ascii.eqb Bool.eqb]; rewrite Hx; reflexivity).
  assert (Hsome : forall x y, sorts_before (comparefn "price") x y = false ->
                  price y = None -> price x = None).
  { intros x y Hxy Hy. rewrite SortFacts.sorts_before_keys in Hxy.
    cbn [String.eqb Ascii.eqb Bool.eqb] in Hxy. rewrite Hy in Hxy.
    destruct (price x); [discriminate | reflexivity]. }
  apply (SortFacts.Array_sort_ordered (comparefn "price")
           (fun later earlier => price earlier = None -> price later = None)
           (fun _ => True)) with (l := ps); [ | | | | exact Hp].
  - intros x y Hxy Hx. rewrite (Hnone x y Hx) in Hxy. discriminate.
  - exact Hsome.
  - intros x y w _ Hxy Hyw Hw. exact (Hsome x y Hxy (Hyw Hw)).
  - apply Forall_forall. intros; exact I.
Qed.

Lemma sorted_by_price_puts_unpriced_last_witness :
  SortFacts.precedes (SortFacts.unpriced "B") (SortFacts.unpriced "A")
    (sorted "price" [SortFacts.unpriced "B"; cheap; SortFacts.unpriced "A"]) /\
  price (SortFacts.unpriced "A") = None.
Proof.
  assert (Hp : SortFacts.precedes (SortFacts.unpriced "B") (SortFacts.unpriced "A")
                 (sorted "price" [SortFacts.unpriced "B"; cheap; SortFacts.unpriced "A"]))
    by (exists [cheap], [], []; reflexivity).
  split; [exact Hp|].
  apply (sorted_by_price_puts_unpriced_last _ _ _ Hp). reflexivity.
Defined.

(** *** Filter and sort together *)

Lemma filter_all {A : Type} (f : A -> bool) (l : list A) :
  (forall x, In x l -> f x = true) -> filter f l = l.
Proof.
  induction l as [ | x rest IH ]; intros Hall; [reflexivity|].
  simpl. rewrite (Hall x (or_introl eq_refl)). f_equal.
  apply IH. intros y Hy. apply Hall. right. exact Hy.
Qed.

(** X4: the list the pipeline stores holds exactly the products of the
    response that pass the price window, whatever the sort key; filtering
    it again with the same window, before or after the sort, changes
    nothing. *)
Theorem stored_products_pass_the_window (sortBy : string)
    (priceRange : number * number) (ps : list Product) :
  (forall x, In x (sorted sortBy (filtered priceRange ps)) <->
             In x ps /\ in_window priceRange x = true) /\
  filtered priceRange (sorted sortBy (filtered priceRange ps)) =
    sorted sortBy (filtered priceRange ps) /\
  filtered priceRange (filtered priceRange ps) = filtered priceRange ps /\
  (List.length (sorted sortBy (filtered priceRange ps)) <= List.length ps)%nat.
Proof.
  pose proof (SortFacts.Array_sort_permutation (comparefn sortBy)
                (filtered priceRange ps)) as Hp.
  assert (Hin : forall x, In x (sorted sortBy (filtered priceRange ps)) <->
                          In x ps /\ in_window priceRange x = true).
  { intros x. unfold filtered at 1. rewrite <- filter_In. split; intros Hx.
    - apply (Permutation_in _ (Permutation_sym Hp) Hx).
    - apply (Permutation_in _ Hp Hx). }
  split; [exact Hin|]. split; [|split].
  - apply filter_all. intros x Hx. apply Hin, Hx.
  - apply filter_all. intros x Hx. apply filter_In in Hx. apply Hx.
  - unfold sorted. rewrite <- (Permutation_length Hp). apply filter_length_le.
Qed.

(** *** The normalizer *)

Lemma map_raw_elements_from (random : nat -> number) (arr : list value) :
  forall idx k, map raw (NormalizerFacts.elements_from random idx k arr) = arr.
Proof.
  induction arr as [ | p rest IH ]; intros idx k; [reflexivity|].
  simpl. rewrite IH. reflexivity.
Qed.

(** X5: when the normalizer returns, the [raw] fields of its products are
    the elements of the response, in the order of the response: the input
    array can be read back from the products, and nothing of it is
    interpreted away. *)
Theorem normalize_keeps_the_source (random : nat -> number) (json : value)
    (ps : list Product) :
  normalize random json = Normal ps -> map raw ps = ensure_array json.
Proof.
  intros Hn. apply NormalizerFacts.normalize_returns in Hn. subst ps.
  apply map_raw_elements_from.
Qed.

Definition three_elements : value :=
VArr [VNull; VObj [("asin", VStr "A1"); ("price", VStr "1,200")]; VStr "text"].

Lemma normalize_keeps_the_source_witness :
  exists ps,
    normalize (fun _ => PrimFloat.zero) three_elements = Normal ps /\
    map raw ps = ensure_array three_elements.
Proof.
  eexists. split; [reflexivity|].
  apply (normalize_keeps_the_source (fun _ => PrimFloat.zero) three_elements).
  reflexivity.
Defined.

(** The elements for which [Math.random] is called. *)
Definition lacks_reviews (p : value) : bool := nullish (source_reviews p).

Lemma normalize_element_without_draw (r1 r2 : nat -> number) (idx k : nat) (p : value) :
  lacks_reviews p = false ->
  normalize_element r1 idx p k = normalize_element r2 idx p k.
Proof.
  unfold lacks_reviews, normalize_element. intros Hp.
  unfold Normalizer.bind. rewrite Hp. reflexivity.
Qed.

Lemma normalize_element_state (random : nat -> number) (idx k k' : nat)
    (p : value) (x : Product) :
  normalize_element random idx p k = Normal (x, k') ->
  k' = (k + (if lacks_reviews p then 1 else 0))%nat.
Proof.
  destruct (NormalizerFacts.coercible p) eqn:Hc.
  - rewrite (NormalizerFacts.normalize_element_coercible random idx k p Hc).
    intros E. injection E as _ <-. reflexivity.
  - destruct (NormalizerFacts.normalize_element_throws random idx k p Hc) as [e ->].
    discriminate.
Qed.

Lemma map_from_without_draw (r1 r2 : nat -> number) (arr : list value) :
  forall idx k,
  forallb (fun p => negb (lacks_reviews p)) arr = true ->
  map_from r1 idx arr k = map_from r2 idx arr k.
Proof.
  induction arr as [ | p rest IH ]; intros idx k Hall; [reflexivity|].
  simpl in Hall. apply andb_prop in Hall. destruct Hall as [Hp Hrest].
  apply negb_true_iff in Hp. cbn [map_from]. unfold Normalizer.bind at 1 3.
  rewrite (normalize_element_without_draw r1 r2 idx k p Hp).
  destruct (normalize_element r2 idx p k) as [[x k'] | e]; [|reflexivity].
  unfold Normalizer.bind. rewrite (IH (S idx) k' Hrest). reflexivity.
Qed.

Lemma map_from_state (random : nat -> number) (arr : list value) :
  forall idx k ps k',
  map_from random idx arr k = Normal (ps, k') ->
  k' = (k + List.length (filter lacks_reviews arr))%nat.
Proof.
  induction arr as [ | p rest IH ]; intros idx k ps k' E.
  - injection E as _ <-. simpl. lia.
  - cbn [map_from] in E. unfold Normalizer.bind at 1 in E.
    destruct (normalize_element random idx p k) as [[x k1] | e] eqn:Ep; [|discriminate].
    apply normalize_element_state in Ep.
    unfold Normalizer.bind at 1 in E.
    destruct (map_from random (S idx) rest k1) as [[xs k2] | e] eqn:Er; [|discriminate].
    apply IH in Er. injection E as _ <-. subst k1 k2.
    simpl. destruct (lacks_reviews p); simpl; lia.
Qed.

(** X6: [Math.random] is called once for each element that has neither
    [reviews] nor [review_count], and for no other; a response in which
    every element carries a review count is normalized to the same result
    whatever [Math.random] returns. *)
Theorem random_only_fills_missing_reviews (r1 r2 : nat -> number) (json : value) :
  (forall ps draws, normalized r1 json 0 = Normal (ps, draws) ->
     draws = List.length (filter lacks_reviews (ensure_array json))) /\
  (forallb (fun p => negb (lacks_reviews p)) (ensure_array json) = true ->
   normalize r1 json = normalize r2 json).
Proof.
  split.
  - intros ps draws E. apply map_from_state in E. exact E.
  - intros Hall. unfold normalize, normalized.
    rewrite (map_from_without_draw r1 r2 _ 0 0 Hall). reflexivity.
Qed.

Lemma normalized_product (random : nat -> number) (json : value)
    (ps : list Product) (x : Product) :
  normalize random json = Normal ps -> In x ps ->
  In (raw x) (ensure_array json) /\
  price x = NormalizerFacts.code_price (source_price (raw x)).
Proof.
  intros Hn Hx. apply NormalizerFacts.normalize_returns in Hn. subst ps.
  apply In_nth_error in Hx. destruct Hx as [i Hi].
  destruct (NormalizerFacts.elements_from_nth _ _ _ _ _ _ Hi) as (p & k & Hp & ->).
  split; [exact (nth_error_In _ _ Hp) | reflexivity].
Qed.

(** A decimal digit, as [\d] matches it. *)
Definition is_digit (c : ascii) : bool :=
let n := N_of_ascii c in ((48 <=? n) && (n <=? 57))%N.

Fixpoint only_points (s : string) : bool :=
match s with
| EmptyString => true
| String c rest => Ascii.eqb c "." && only_points rest
end.

(** Of a text without a digit only decimal points are kept. *)
Lemma keep_without_digit (s : string) :
  keep is_digit s = "" -> only_points (keep is_digit_or_dot s) = true.
Proof.
  induction s as [ | c rest IH ]; [reflexivity|].
  cbn [keep].
  replace (is_digit_or_dot c) with (is_digit c || (N_of_ascii c =? 46)%N)
    by reflexivity.
  destruct (is_digit c); [discriminate|].
  intros Hrest. cbn [orb].
  destruct (N.eqb_spec (N_of_ascii c) 46) as [E | _]; [|exact (IH Hrest)].
  cbn [only_points]. rewrite (IH Hrest), andb_true_r.
  apply Ascii.eqb_eq. rewrite <- (ascii_N_embedding c), E. reflexivity.
Qed.

(** Decimal points alone are no number: [Number("")] is 0, and
    [Number(".")], [Number("..")] and so on are NaN. *)
Lemma points_are_no_price (t : string) :
  only_points t = true ->
  is_nan (StringToNumber t) || is_zero (StringToNumber t) = true.
Proof.
  destruct t as [ | c t ]; [reflexivity|].
  cbn [only_points]. intros H. apply andb_prop in H. destruct H as [Hc Ht].
  apply Ascii.eqb_eq in Hc. subst c.
  destruct t as [ | c t ]; [reflexivity|].
  cbn [only_points] in Ht. apply andb_prop in Ht. destruct Ht as [Hc _].
  apply Ascii.eqb_eq in Hc. subst c. reflexivity.
Qed.

(** X7: a product whose price text holds no digit (["free"], ["N.A."]) has
    no price after normalization and therefore passes every price window. *)
Theorem price_text_without_digits (random : nat -> number) (json : value)
    (ps : list Product) (x : Product) (s : string) :
  normalize random json = Normal ps -> In x ps ->
  source_price (raw x) = VStr s -> keep is_digit s = "" ->
  price x = None /\ forall priceRange, in_window priceRange x = true.
Proof.
  intros Hn Hx Hs Hd.
  destruct (normalized_product random json ps x Hn Hx) as [_ Hp].
  rewrite Hs in Hp. cbn [NormalizerFacts.code_price] in Hp.
  rewrite (points_are_no_price _ (keep_without_digit s Hd)) in Hp.
  split; [exact Hp|].
  intros [minP maxP]. unfold in_window. rewrite Hp. reflexivity.
Qed.

Definition free_sample : value := VArr [VObj [("price", VStr "N.A.")]].

Lemma price_text_without_digits_witness :
  exists x,
    normalize (fun _ => PrimFloat.zero) free_sample = Normal [x] /\ In x [x] /\
    source_price (raw x) = VStr "N.A." /\ keep is_digit "N.A." = "" /\
    price x = None /\ forall priceRange, in_window priceRange x = true.
Proof.
  eexists. split; [reflexivity|]. split; [left; reflexivity|].
  split; [reflexivity|]. split; [reflexivity|].
  eapply (price_text_without_digits (fun _ => PrimFloat.zero) free_sample _ _ "N.A.");
    [reflexivity | left; reflexivity | reflexivity | reflexivity].
Defined.

(** X8: a product normalized from a parsed response has a price that is
    [null] or a number other than NaN, and a price read from text is never
    zero either: zero and NaN both stand for an unknown price. *)
Theorem normalized_price_is_known_or_null (random : nat -> number) (json : value)
    (ps : list Product) (x : Product) (n : number) :
  FilterFacts.parsed json = true -> normalize random json = Normal ps ->
  In x ps -> price x = Some n ->
  is_nan n = false /\
  (typeof (source_price (raw x)) = "string" -> is_zero n = false).
Proof.
  intros Hj Hn Hx Hp.
  destruct (normalized_product random json ps x Hn Hx) as [Hraw Hprice].
  assert (Hpp : FilterFacts.parsed (raw x) = true).
  { destruct json; try (destruct Hraw; fail).
    simpl in Hj, Hraw. rewrite forallb_forall in Hj. exact (Hj _ Hraw). }
  rewrite Hp in Hprice. symmetry in Hprice. split.
  - exact (FilterFacts.code_price_not_nan _ _
             (FilterFacts.source_price_parsed _ Hpp) Hprice).
  - intros Ht. destruct (source_price (raw x)); try discriminate.
    cbn [NormalizerFacts.code_price] in Hprice.
    destruct (is_nan _) eqn:En; simpl in Hprice; [discriminate|].
    destruct (is_zero _) eqn:Ez; [discriminate|].
    injection Hprice as <-. exact Ez.
Qed.

Lemma normalized_price_is_known_or_null_witness :
  exists ps x,
    FilterFacts.parsed three_elements = true /\
    normalize (fun _ => PrimFloat.zero) three_elements = Normal ps /\
    In x ps /\ price x = Some 1200%float /\
    is_nan 1200%float = false /\
    (typeof (source_price (raw x)) = "string" -> is_zero 1200%float = false).
Proof.
  eexists. eexists. split; [reflexivity|]. split; [reflexivity|].
  split; [right; left; reflexivity|]. split; [reflexivity|].
  eapply (normalized_price_is_known_or_null (fun _ => PrimFloat.zero) three_elements _ _
            1200%float);
    [reflexivity | reflexivity | right; left; reflexivity | reflexivity].
Defined.

End PipelineFacts.

(** ** Further properties of the price window and of the pager *)

Module WindowAndPagerFacts.

Import JS PriceRange Normalizer Pipeline App Components.

Local Open Scope Z_scope.

(** The bounds of the window in closed form. *)
Definition lowest (p : Z) : Z := 59750 - 400 * p.

Definition highest (p : Z) : Z := Z.min 100000 (100250 - 800 * p).

Lemma priceRange_of_bounds (p : Z) :
  0 <= p <= 100 -> priceRange_of (of_Z p) = (of_Z (lowest p), of_Z (highest p)).
Proof.
  intros Hp. apply PriceRangeFacts.slider_values in Hp.
  cbn [seq map Z.of_nat Pos.of_succ_nat Pos.succ] in Hp.
  repeat (destruct Hp as [<- | Hp]; [vm_compute; reflexivity|]).
  destruct Hp.
Qed.

(** X9: for a slider value [p] of 0 to 100 the window is
    [59750 - 400 p] to [min(100000, 100250 - 800 p)]: it is at least 500
    wide, and when the importance of the price grows both bounds go down
    and the window gets narrower. *)
Theorem price_window_moves_down (p q : Z) :
  0 <= p <= q -> q <= 100 ->
  priceRange_of (of_Z p) = (of_Z (lowest p), of_Z (highest p)) /\
  priceRange_of (of_Z q) = (of_Z (lowest q), of_Z (highest q)) /\
  500 <= highest q - lowest q <= highest p - lowest p /\
  lowest q <= lowest p /\ highest q <= highest p.
Proof.
  intros Hp Hq.
  split; [apply priceRange_of_bounds; lia|].
  split; [apply priceRange_of_bounds; lia|].
  unfold lowest, highest. lia.
Qed.

Lemma price_window_moves_down_witness :
  0 <= 30 <= 80 /\ 80 <= 100 /\
  priceRange_of (of_Z 30) = (of_Z (lowest 30), of_Z (highest 30)) /\
  priceRange_of (of_Z 80) = (of_Z (lowest 80), of_Z (highest 80)) /\
  500 <= highest 80 - lowest 80 <= highest 30 - lowest 30 /\
  lowest 80 <= lowest 30 /\ highest 80 <= highest 30.
Proof.
  split; [lia|]. split; [lia|]. apply (price_window_moves_down 30 80); lia.
Defined.

(** *** Pages *)

Lemma shown_length_exact {A : Type} (products : list A) (i : nat) :
  List.length (shown products (Z.of_nat (S i))) =
  Nat.min 12 (List.length products - 12 * i).
Proof.
  rewrite PageFacts.shown_chunk, length_firstn, length_skipn. reflexivity.
Qed.

(** X10: page [p >= 1] shows [min(12, count - 12 (p - 1))] products, none
    when that is negative: every page before the last is full, the last
    page of a list that is not empty shows at least one product, and a page
    after the last shows nothing. *)
Theorem page_sizes {A : Type} (products : list A) (p : Z) :
  1 <= p ->
  Z.of_nat (List.length (shown products p)) =
    Z.max 0 (Z.min 12 (Z.of_nat (List.length products) - 12 * (p - 1))) /\
  (p < totalPages products -> List.length (shown products p) = 12%nat) /\
  (p = totalPages products -> products <> [] -> shown products p <> []) /\
  (totalPages products < p -> shown products p = []).
Proof.
  intros Hp.
  assert (Ei : p = Z.of_nat (S (Z.to_nat (p - 1)))) by lia.
  pose proof (shown_length_exact products (Z.to_nat (p - 1))) as Hl.
  rewrite <- Ei in Hl.
  pose proof (PageFacts.totalPages_closed_form products) as Ht.
  assert (Hn : Z.of_nat (List.length (shown products p)) =
               Z.max 0 (Z.min 12 (Z.of_nat (List.length products) - 12 * (p - 1))))
    by lia.
  split; [exact Hn|]. split; [|split].
  - intros Hlt. rewrite Ht in Hlt.
    assert (12 * p < Z.of_nat (List.length products))
      by (revert Hlt; generalize (Z.of_nat (List.length products)); intros n;
          Z.div_mod_to_equations; lia).
    lia.
  - intros -> Hne Hnil. rewrite Hnil in Hn. cbn [List.length Z.of_nat] in Hn.
    assert (Hpos : 0 < Z.of_nat (List.length products))
      by (destruct products; [contradiction | simpl List.length; lia]).
    rewrite Ht in Hn. revert Hn Hpos.
    generalize (Z.of_nat (List.length products)). intros n.
    Z.div_mod_to_equations. lia.
  - intros Hgt. apply length_zero_iff_nil. rewrite Ht in Hgt.
    assert (Z.of_nat (List.length products) <= 12 * (p - 1))
      by (revert Hgt; generalize (Z.of_nat (List.length products)); intros n;
          Z.div_mod_to_equations; lia).
    lia.
Qed.

Lemma page_sizes_witness :
  1 <= 2 /\
  Z.of_nat (List.length (shown (seq 0 13) 2)) =
    Z.max 0 (Z.min 12 (Z.of_nat (List.length (seq 0 13)) - 12 * (2 - 1))).
Proof.
  split; [lia|]. apply (page_sizes (seq 0 13) 2). lia.
Defined.

(** X11: a pager button is disabled exactly when its updater would leave
    the page where it is. *)
Theorem disabled_buttons_do_nothing (st : AppState) :
  (prev_disabled st = true <-> prev_page (page st) = page st) /\
  (next_disabled st = true <-> next_page (products st) (page st) = page st).
Proof.
  unfold prev_disabled, next_disabled, prev_page, next_page.
  rewrite !Z.eqb_eq. lia.
Qed.

(** X12: from a page of the range 1 to [totalPages], Next followed by Prev
    and Prev followed by Next come back to the page, except at the end
    where the first of the two does nothing. *)
Theorem pager_round_trip {A : Type} (products : list A) (p : Z) :
  1 <= p <= totalPages products ->
  (p < totalPages products -> prev_page (next_page products p) = p) /\
  (1 < p -> next_page products (prev_page p) = p) /\
  (p = totalPages products -> prev_page (next_page products p) = prev_page p) /\
  (p = 1 -> next_page products (prev_page p) = next_page products p).
Proof.
  unfold prev_page, next_page. intros Hp. repeat split; intros; subst; lia.
Qed.

Lemma pager_round_trip_witness :
  1 <= 2 <= totalPages (seq 0 30) /\
  (2 < totalPages (seq 0 30) -> prev_page (next_page (seq 0 30) 2) = 2).
Proof.
  split; [vm_compute; split; discriminate|].
  apply (pager_round_trip (seq 0 30) 2). vm_compute. split; discriminate.
Defined.

End WindowAndPagerFacts.

(** ** Properties of the handlers as a whole *)

Module HandlerFacts.

Import JS Normalizer Pipeline App Components Logger AutoFetch.

Local Open Scope string_scope.

(** The fields of the state that only the controls of the page write. *)
Definition same_inputs (a b : AppState) : Prop :=
prompt a = prompt b /\ debouncedPrompt a = debouncedPrompt b /\
priceImportance a = priceImportance b /\ priceRange a = priceRange b /\
sortBy a = sortBy b.

(** A request that posts a log entry, and a request of any other kind. *)
Definition is_log_post (e : effect) : bool :=
match e with
| Fetch method url _ => String.eqb method "POST" && String.eqb url log_url
| _ => false
end.

Definition other_request (e : effect) : bool := is_fetch e && negb (is_log_post e).

Definition is_log_call (e : effect) : bool :=
match e with
| SendLog _ _ _ => true
| _ => false
end.

Section Logging.

Variable toUpperCase : string -> string.
Variable JSON_stringify : value -> completion string.
Variable clock : nat -> string.

(** A call of [sendLog] makes no request but the post of its entry, at most
    one, and writes no state. *)
Lemma sendLog_effects (ts level message : string) (meta : value) :
  let t := effects (sendLog toUpperCase JSON_stringify ts level message meta) in
  filter other_request t = [] /\
  (List.length (filter is_log_post t) <= 1)%nat /\
  forall st, run_effects st t = st.
Proof.
  cbv zeta. unfold sendLog.
  destruct (JSON_stringify _) as [body | e]; cbn; repeat split; lia.
Qed.

Lemma expand_other_requests (t : list effect) :
  forall k, filter other_request (expand toUpperCase JSON_stringify clock k t) =
            filter other_request t.
Proof.
  induction t as [ | e rest IH ]; intros k; [reflexivity|].
  destruct e; cbn [expand filter]; try (rewrite IH; reflexivity).
  rewrite filter_app, IH.
  destruct (sendLog_effects (clock k) level msg meta) as (-> & _). reflexivity.
Qed.

Lemma expand_log_posts (t : list effect) :
  Forall (fun e => is_log_post e = false) t ->
  forall k, (List.length (filter is_log_post
                            (expand toUpperCase JSON_stringify clock k t)) <=
             List.length (filter is_log_call t))%nat.
Proof.
  induction 1 as [ | e rest He _ IH ]; intros k; [apply le_n|].
  destruct e; cbn [expand filter is_log_call]; try rewrite He; try apply IH.
  rewrite filter_app, length_app. cbn [List.length].
  destruct (sendLog_effects (clock k) level msg meta) as (_ & Hle & _).
  specialize (IH (S k)). lia.
Qed.

Lemma run_effects_expand (t : list effect) :
  forall k st, run_effects st (expand toUpperCase JSON_stringify clock k t) =
               run_effects st t.
Proof.
  induction t as [ | e rest IH ]; intros k st; [reflexivity|].
  destruct e; cbn [expand]; try exact (IH k _).
  unfold run_effects at 1. rewrite fold_left_app.
  fold (run_effects st (effects (sendLog toUpperCase JSON_stringify (clock k)
                                   level msg meta))).
  destruct (sendLog_effects (clock k) level msg meta) as (_ & _ & ->).
  exact (IH (S k) st).
Qed.

End Logging.

Ltac evaluate :=
  cbn;
  repeat (match goal with
          | H : _ = _ |- _ => rewrite H
          end; cbn).

Section Recommend.

Variable random : nat -> number.
Variable encodeURIComponent : value -> completion string.

(** The five ways through [fetchRecommendations]. *)
Ltac paths q outcome :=
  unfold fetchRecommendations, load_recommendations, bad_response, text_or_empty;
  let enc := fresh "enc" in
  let Henc := fresh "Henc" in
  destruct (encodeURIComponent (VStr q)) as [enc | ?] eqn:Henc;
  [ destruct outcome as [? | res];
    [ | destruct (ok res) eqn:Hok;
        [ destruct (body_json res) as [json | ] eqn:Hjson;
          [ destruct (normalize random json) as [ps | ?] eqn:Hnorm | ] | ] ] | ];
  evaluate.

(** X13: [fetchRecommendations] never touches the trust lookup nor the
    inputs of the page, whatever state it runs over; when it ends without an
    error the page is 1, and when it ends with an error the page number is
    the one from before, although the list has been emptied. *)
Theorem fetchRecommendations_frame (st st0 : AppState) (opts : option string)
    (outcome : fetch_outcome) :
  let h := fetchRecommendations random encodeURIComponent st opts outcome in
  let final := run_effects st0 (effects h) in
  trustFor final = trustFor st0 /\
  same_inputs final st0 /\
  page final = match error final with
               | None => 1%Z
               | Some _ => page st0
               end /\
  (error final <> None -> products final = []).
Proof.
  intros h final. subst h final. unfold same_inputs.
  paths (or_default opts (or_default (Some (debouncedPrompt st)) (prompt st))) outcome;
    repeat split; congruence.
Qed.

(** X14: with the calls of [sendLog] spelled out, the requests of
    [fetchRecommendations] are the posts of its two log entries and one
    more: a GET of the recommend endpoint for the prompt handed over, and
    for the debounced prompt of the render that built the handler when none
    is handed over, with the slider value of that render.  When the prompt
    cannot be encoded only the log entries are posted.  The prompt as it is
    being typed is not read. *)
Theorem fetchRecommendations_request (toUpperCase : string -> string)
    (JSON_stringify : value -> completion string) (clock : nat -> string)
    (st : AppState) (opts : option string) (outcome : fetch_outcome)
    (typed : string) :
  let q := or_default opts (debouncedPrompt st) in
  let h := fetchRecommendations random encodeURIComponent st opts outcome in
  let t := expand toUpperCase JSON_stringify clock 0 (effects h) in
  filter other_request t =
    match encodeURIComponent (VStr q) with
    | Normal enc => [Fetch "GET" (recommend_url enc (priceImportance st)) None]
    | Throw _ => []
    end /\
  (List.length (filter is_log_post t) <= 2)%nat /\
  (forall st0, run_effects st0 t = run_effects st0 (effects h)) /\
  fetchRecommendations random encodeURIComponent
    (MkState typed (debouncedPrompt st) (priceImportance st) (priceRange st)
       (sortBy st) (page st) (products st) (loading st) (trustFor st) (error st))
    opts outcome = h.
Proof.
  intros q h t. subst q h t.
  replace (or_default opts (debouncedPrompt st))
    with (or_default opts (or_default (Some (debouncedPrompt st)) (prompt st)))
    by reflexivity.
  split; [|split; [|split; [|reflexivity]]].
  - rewrite expand_other_requests.
    paths (or_default opts (or_default (Some (debouncedPrompt st)) (prompt st))) outcome;
      reflexivity.
  - etransitivity; [apply expand_log_posts|].
    + paths (or_default opts (or_default (Some (debouncedPrompt st)) (prompt st))) outcome;
        repeat constructor.
    + paths (or_default opts (or_default (Some (debouncedPrompt st)) (prompt st))) outcome;
        apply le_n.
  - intros st0. apply run_effects_expand.
Qed.

(** Whatever [fetchRecommendations] stores passes the price window of the
    render that built it. *)
Lemma stored_passes_window (st st0 : AppState) (opts : option string)
    (outcome : fetch_outcome) (x : Product) :
  In x (products
          (run_effects st0
             (effects (fetchRecommendations random encodeURIComponent st opts outcome)))) ->
  in_window (priceRange st) x = true.
Proof.
  paths (or_default opts (or_default (Some (debouncedPrompt st)) (prompt st))) outcome;
    intros Hx; try (destruct Hx; fail).
  apply (Permutation_in _ (Permutation_sym (SortFacts.sorted_permutation _ _))) in Hx.
  unfold filtered in Hx. apply filter_In in Hx. apply Hx.
Qed.

(** X15: after a search that succeeds the first page is shown: the first
    twelve products of the stored list, with Prev disabled, and with Next
    disabled exactly when there are no more than twelve. *)
Theorem first_page_after_success (st st0 : AppState) (opts : option string)
    (res : Response) (enc : string) (json : value) (ps : list Product) :
  encodeURIComponent (VStr (or_default opts (debouncedPrompt st))) = Normal enc ->
  ok res = true -> body_json res = Some json ->
  normalize random json = Normal ps ->
  let final :=
    run_effects st0
      (effects (fetchRecommendations random encodeURIComponent st opts (Resolved res))) in
  let stored := sorted (sortBy st) (filtered (priceRange st) ps) in
  products final = stored /\
  shown (products final) (page final) = firstn 12 stored /\
  (1 <= page final <= totalPages (products final))%Z /\
  prev_disabled final = true /\
  (next_disabled final = true <-> (List.length stored <= 12)%nat) /\
  loading final = false /\ error final = None.
Proof.
  intros Henc Hok Hjson Hnorm final stored. subst final stored.
  unfold fetchRecommendations, load_recommendations.
  replace (or_default opts (or_default (Some (debouncedPrompt st)) (prompt st)))
    with (or_default opts (debouncedPrompt st)) by reflexivity.
  evaluate.
  set (stored := sorted (sortBy st) (filtered (priceRange st) ps)).
  pose proof (PageFacts.totalPages_closed_form stored) as Ht.
  split; [reflexivity|].
  split; [exact (PageFacts.shown_chunk stored 0)|].
  split; [rewrite Ht; lia|].
  split; [reflexivity|].
  split; [|split; reflexivity].
  change (Z.eqb 1 (totalPages stored) = true <-> (List.length stored <= 12)%nat).
  rewrite Z.eqb_eq, Ht.
  rewrite Nat2Z.inj_le. change (Z.of_nat 12) with 12%Z.
  generalize (Nat2Z.is_nonneg (List.length stored)).
  generalize (Z.of_nat (List.length stored)). intros n Hn.
  Z.div_mod_to_equations. lia.
Qed.

End Recommend.

(** A response with two products, for a run in which [Math.random] is not
    called. *)
Definition answer : Response := MkResponse 200 None (Some Scenarios.two_products).

Definition no_reviews (_ : nat) : number := PrimFloat.zero.

Definition answer_products : list Product :=
match normalize no_reviews Scenarios.two_products with
| Normal ps => ps
| Throw _ => []
end.

Lemma first_page_after_success_witness :
  let final :=
    run_effects initial_state
      (effects (fetchRecommendations no_reviews plain_encoding initial_state
                  (Some "phone") (Resolved answer))) in
  products final =
    sorted "score" (filtered (PrimFloat.zero, 20000%float) answer_products) /\
  prev_disabled final = true.
Proof.
  destruct (first_page_after_success no_reviews plain_encoding initial_state
              initial_state (Some "phone") answer "phone" Scenarios.two_products
              answer_products eq_refl eq_refl eq_refl eq_refl)
    as (H1 & _ & _ & H2 & _).
  split; [exact H1 | exact H2].
Defined.


Section Trust.

Variable encodeURIComponent : value -> completion string.

Ltac trust_paths asin outcome :=
  unfold handleTrust, bad_response, text_or_empty;
  let enc := fresh "enc" in
  let Henc := fresh "Henc" in
  destruct (encodeURIComponent asin) as [enc | ?] eqn:Henc;
  [ destruct outcome as [? | res];
    [ | destruct (ok res) eqn:Hok;
        [ destruct (body_json res) as [json | ] eqn:Hjson | ] ] | ];
  evaluate.

(** X16: with the calls of [sendLog] spelled out, [handleTrust] writes
    nothing but the trust lookup: the products, the page, the loading flag
    and the error of the page stay as they are on every path, a failed
    lookup included, and the inputs too.  Its requests are the posts of its
    two log entries and one more, a GET of the trust endpoint for its asin;
    when the asin cannot be encoded only the log entries are posted. *)
Theorem handleTrust_frame (toUpperCase : string -> string)
    (JSON_stringify : value -> completion string) (clock : nat -> string)
    (asin : value) (outcome : fetch_outcome) (st0 : AppState) :
  let h := handleTrust encodeURIComponent asin outcome in
  let t := expand toUpperCase JSON_stringify clock 0 (effects h) in
  let final := run_effects st0 t in
  products final = products st0 /\ page final = page st0 /\
  loading final = loading st0 /\ error final = error st0 /\
  same_inputs final st0 /\
  filter other_request t =
    match encodeURIComponent asin with
    | Normal enc => [Fetch "GET" (trust_url enc) None]
    | Throw _ => []
    end /\
  (List.length (filter is_log_post t) <= 2)%nat.
Proof.
  intros h t final. subst h t final. unfold same_inputs.
  rewrite run_effects_expand, expand_other_requests.
  assert (Hposts : (List.length
                      (filter is_log_post
                         (expand toUpperCase JSON_stringify clock 0
                            (effects (handleTrust encodeURIComponent asin outcome)))) <= 2)%nat).
  { etransitivity; [apply expand_log_posts|].
    - trust_paths asin outcome; repeat constructor.
    - trust_paths asin outcome; apply le_n. }
  revert Hposts. generalize (expand toUpperCase JSON_stringify clock 0
                              (effects (handleTrust encodeURIComponent asin outcome))).
  intros t Hposts.
  trust_paths asin outcome; repeat split; (reflexivity || exact Hposts).
Qed.

(** What [res.text().catch(() => "")] resolves to. *)
Definition text_of (res : Response) : string :=
match body_text res with
| Some t => t
| None => ""
end.

(** The body of the modal for a lookup that ended with the message [msg]. *)
Definition error_view (msg : string) : list block :=
((if String.eqb msg "" then [] else [ErrorPill (VStr msg)]) ++
 [RawData (obj [("error", VStr msg)])])%list.

Lemma modal_of_error (msg : string) :
  TrustModal false (obj [("error", VStr msg)]) = Normal (error_view msg).
Proof.
  unfold TrustModal, guarded, showing, error_view. cbn.
  destruct (String.eqb msg ""); reflexivity.
Qed.

Lemma modal_after (st : AppState) (asin : value) (t : list effect) (data : value) :
  trustFor (run_effects st t) = Some (MkTrust asin false data) ->
  trust_modal (run_effects st t) = Some (TrustModal false data).
Proof. unfold trust_modal. intros ->. reflexivity. Qed.

(** X17: while a trust lookup is in flight the modal shows the loading note
    and nothing else.  A lookup that fails ends with the modal showing the
    error object: after a status that is not a success status the pill
    holds the body of the response, or "Bad response: <status>" when the
    body is empty or cannot be read; after a body that is not JSON it holds
    "Invalid JSON from /api/trust"; after a rejected request it holds the
    message of the rejection, and there is no pill when that message is
    empty. *)
Theorem failed_lookup_is_shown (asin : value) (outcome : fetch_outcome)
    (st0 : AppState) (enc : string) :
  encodeURIComponent asin = Normal enc ->
  let t := effects (handleTrust encodeURIComponent asin outcome) in
  let final := run_effects st0 t in
  trust_modal (run_effects st0 (hd [] (segments t))) = Some (Normal [LoadingNote]) /\
  (forall res, outcome = Resolved res -> ok res = false ->
     let msg := or_else (text_of res) ("Bad response: " ++ decimal (status res)) in
     msg <> "" /\
     trust_modal final =
       Some (Normal [ErrorPill (VStr msg); RawData (obj [("error", VStr msg)])])) /\
  (forall res, outcome = Resolved res -> ok res = true -> body_json res = None ->
     trust_modal final = Some (Normal (error_view "Invalid JSON from /api/trust"))) /\
  (forall e, outcome = Rejected e ->
     trust_modal final = Some (Normal (error_view (message e)))).
Proof.
  intros Henc t final. subst t final.
  split; [|split; [|split]].
  - unfold handleTrust, bad_response, text_or_empty. rewrite Henc.
    destruct outcome as [e | res]; cbn; [reflexivity|].
    destruct (ok res); reflexivity.
  - intros res -> Hok.
    set (msg := or_else (text_of res) ("Bad response: " ++ decimal (status res))).
    assert (Hmsg : msg <> "")
      by (apply RecommendFacts.or_else_nonempty; discriminate).
    split; [exact Hmsg|].
    rewrite (modal_after _ asin _ (obj [("error", VStr msg)])).
    + rewrite modal_of_error. unfold error_view.
      destruct (String.eqb_spec msg ""); [contradiction | reflexivity].
    + unfold handleTrust, bad_response, text_or_empty. rewrite Henc.
      cbn. rewrite Hok. reflexivity.
  - intros res -> Hok Hjson.
    rewrite (modal_after _ asin _ (obj [("error", VStr "Invalid JSON from /api/trust")])).
    + rewrite modal_of_error. reflexivity.
    + unfold handleTrust, bad_response, text_or_empty. rewrite Henc.
      cbn. rewrite Hok. cbn. rewrite Hjson. reflexivity.
  - intros e ->.
    rewrite (modal_after _ asin _ (obj [("error", VStr (message e))])).
    + apply f_equal, modal_of_error.
    + unfold handleTrust. rewrite Henc. reflexivity.
Qed.

End Trust.

Definition server_down : Response := MkResponse 500 (Some "server down") None.

Lemma failed_lookup_is_shown_witness :
  trust_modal
    (run_effects initial_state
       (effects (handleTrust plain_encoding (VStr "A1") (Resolved server_down)))) =
  Some (Normal [ErrorPill (VStr "server down");
                RawData (obj [("error", VStr "server down")])]).
Proof.
  destruct (failed_lookup_is_shown plain_encoding (VStr "A1") (Resolved server_down)
              initial_state "A1" eq_refl) as (_ & H & _).
  exact (proj2 (H server_down eq_refl eq_refl)).
Defined.


(** *** The automatic search *)

Ltac byte x :=
  destruct x as [ | x ]; [ try reflexivity | ];
  do 8 (try (destruct x as [ x | x | ]; try reflexivity)).

(** What [skip_ws] returns starts with no white space. *)
Lemma skip_ws_done_bounded (n : nat) (l : list N) :
  (List.length l <= n)%nat -> skip_ws (skip_ws l) = skip_ws l.
Proof.
  revert l. induction n as [ | n IH ]; intros l Hl.
  - destruct l; [reflexivity | simpl in Hl; lia].
  - assert (Hshort : forall r, (List.length r <= n)%nat ->
                     skip_ws (skip_ws r) = skip_ws r) by exact IH.
    clear IH.
    assert (Hmore : forall (a : N) (r : list N), (List.length (a :: r) <= S n)%nat ->
                    (List.length r <= n)%nat)
      by (intros a r; cbn [List.length]; lia).
    destruct l as [ | a l ]; [reflexivity|].
    apply Hmore in Hl.
    byte a; try solve [cbn [skip_ws]; apply Hshort; exact Hl].
    all: destruct l as [ | b l ]; [reflexivity|].
    all: assert (Hl' : (List.length l <= n)%nat) by (cbn [List.length] in Hl; lia).
    all: byte b; try solve [cbn [skip_ws]; apply Hshort; exact Hl'].
    all: destruct l as [ | c l ]; [reflexivity|].
    all: assert (Hl'' : (List.length l <= n)%nat) by (cbn [List.length] in Hl'; lia).
    all: try match goal with
             | |- context [226%N :: 128%N :: ?x :: _] =>
                 let Ex := fresh "Ex" in
                 cbn [skip_ws]; destruct (is_usp_tail x) eqn:Ex;
                 [ apply Hshort; assumption
                 | cbn [skip_ws]; rewrite Ex; reflexivity ]
             end.
    all: byte c; cbn [skip_ws]; apply Hshort; exact Hl''.
Qed.

Lemma skip_ws_done (l : list N) : skip_ws (skip_ws l) = skip_ws l.
Proof. exact (skip_ws_done_bounded (List.length l) l (le_n _)). Qed.

(** A string is blank when it is empty or holds white space only. *)
Definition blank (s : string) : bool := all_ws (code_units s).

Lemma trim_empty_iff_blank (s : string) :
  (0 <? List.length (trim s))%nat = negb (blank s).
Proof.
  unfold trim, blank, all_ws.
  pose proof (skip_ws_done (code_units s)) as Hd.
  destruct (skip_ws (code_units s)) as [ | c r ]; [reflexivity|].
  cbn [trim_end]. unfold all_ws. rewrite Hd. reflexivity.
Qed.

Lemma empty_is_blank (s : string) : String.eqb s "" = true -> blank s = true.
Proof. intros E. apply String.eqb_eq in E. subst s. reflexivity. Qed.

Section Auto.

Variable random : nat -> number.
Variable encodeURIComponent : value -> completion string.

Lemma fetchRecommendations_completes (st : AppState) (opts : option string)
    (outcome : fetch_outcome) :
  outcome_of (fetchRecommendations random encodeURIComponent st opts outcome) = Normal tt.
Proof.
  unfold fetchRecommendations, load_recommendations, bad_response, text_or_empty.
  destruct (encodeURIComponent _) as [enc | ?] eqn:Henc;
    [ destruct outcome as [? | res];
      [ | destruct (ok res) eqn:Hok;
          [ destruct (body_json res) as [json | ] eqn:Hjson;
            [ destruct (normalize random json) as [ps | ?] eqn:Hnorm | ] | ] ] | ];
    evaluate; reflexivity.
Qed.

(** X18: when the debounced prompt is empty or holds white space only, the
    effect that follows it does nothing: no request, no change of state.
    For any other prompt it is [fetchRecommendations] for that prompt, and
    its [catch] never runs. *)
Theorem auto_fetch_skips_blank_prompts (st : AppState) (outcome : fetch_outcome) :
  auto_fetch random encodeURIComponent st outcome =
    if blank (debouncedPrompt st) then ret tt
    else fetchRecommendations random encodeURIComponent st
           (Some (debouncedPrompt st)) outcome.
Proof.
  unfold auto_fetch. rewrite trim_empty_iff_blank. cbn [ToBoolean].
  destruct (blank (debouncedPrompt st)) eqn:Eb.
  - rewrite andb_false_r. reflexivity.
  - destruct (String.eqb (debouncedPrompt st) "") eqn:Ee.
    + apply empty_is_blank in Ee. congruence.
    + cbn [negb andb].
      pose proof (fetchRecommendations_completes st (Some (debouncedPrompt st)) outcome)
        as Hc.
      unfold outcome_of in Hc.
      destruct (fetchRecommendations _ _ _ _ _) as [t r]. cbn [snd] in Hc.
      subst r. reflexivity.
Qed.

End Auto.

End HandlerFacts.

(** ** Properties of the debounced value *)

Module DebounceFacts.

Import Debounce.

Local Open Scope string_scope.
Local Open Scope nat_scope.

(** The input of the latest render. *)
Definition latest (value0 : string) (es : list event) : string :=
fold_left (fun x e => match e with
                      | Render _ value' _ => value'
                      | Timeout _ => x
                      end) es value0.

(** A pending timeout holds the input of the latest render. *)
Definition pending_is_latest (h : Hook) : Prop :=
match timer h with
| Some (x, _) => x = value h
| None => True
end.

Lemma step_pending_is_latest (h : Hook) (e : event) :
  pending_is_latest h -> pending_is_latest (step h e).
Proof.
  unfold pending_is_latest. destruct e as [now value' ms' | now]; cbn [step].
  - unfold render. destruct (_ && _); [tauto | reflexivity].
  - unfold timeout. destruct (timer h) as [[x due]|] eqn:Et.
    + destruct (due <=? now); [reflexivity | rewrite Et; tauto].
    + rewrite Et. tauto.
Qed.

Lemma step_value (h : Hook) (e : event) :
  value (step h e) = match e with
                     | Render _ value' _ => value'
                     | Timeout _ => value h
                     end.
Proof.
  destruct e as [now value' ms' | now]; cbn [step].
  - unfold render. destruct (String.eqb_spec value' (value h)) as [-> | _].
    + destruct (Nat.eqb ms' (ms h)); reflexivity.
    + reflexivity.
  - unfold timeout. destruct (timer h) as [[x due]|]; [|reflexivity].
    destruct (due <=? now); reflexivity.
Qed.

Lemma run_invariant (es : list event) (h : Hook) (x0 : string) :
  pending_is_latest h -> value h = x0 ->
  pending_is_latest (run h es) /\ value (run h es) = latest x0 es.
Proof.
  unfold run, latest. revert h x0.
  induction es as [ | e es IH ]; intros h x0 Hp Hv; [split; assumption|].
  cbn [fold_left]. apply IH.
  - apply step_pending_is_latest, Hp.
  - rewrite step_value. destruct e; [reflexivity | exact Hv].
Qed.

(** X19: whenever a timeout changes the value that [useDebounced] returns,
    the new value is the input of the latest render: an input that was
    replaced before its timeout fired is never returned. *)
Theorem debounced_value_is_latest_input (t0 : nat) (value0 : string) (ms0 : nat)
    (es : list event) (now : nat) :
  let h := run (mount t0 value0 ms0) es in
  value h = latest value0 es /\
  (v (timeout now h) = v h \/ v (timeout now h) = latest value0 es).
Proof.
  intros h.
  destruct (run_invariant es (mount t0 value0 ms0) value0 eq_refl eq_refl)
    as [Hp Hv].
  fold h in Hp, Hv. split; [exact Hv|].
  unfold pending_is_latest in Hp. unfold timeout.
  destruct (timer h) as [[x due]|]; [|left; reflexivity].
  destruct (due <=? now); [|left; reflexivity].
  right. cbn [v]. congruence.
Qed.

Lemma timeouts_after_firing (times : list nat) (h : Hook) :
  timer h = None -> v (run h (map Timeout times)) = v h.
Proof.
  unfold run. revert h. induction times as [ | now times IH ]; intros h Ht;
    [reflexivity|].
  cbn [map fold_left step]. unfold timeout. rewrite Ht. apply IH, Ht.
Qed.

Lemma timeouts_while_pending (times : list nat) (h : Hook) (x : string) (due : nat) :
  timer h = Some (x, due) ->
  v (run h (map Timeout times)) = if existsb (fun now => due <=? now) times then x else v h.
Proof.
  unfold run. revert h. induction times as [ | now times IH ]; intros h Ht;
    [reflexivity|].
  cbn [map fold_left step existsb]. unfold timeout. rewrite Ht.
  destruct (due <=? now); cbn [orb].
  - exact (timeouts_after_firing times (MkHook x (value h) (ms h) None) eq_refl).
  - apply IH, Ht.
Qed.

(** X20: a render at time [t] with a new input [x] (or a new delay) starts
    the delay again.  If only the clock advances afterwards, the value that
    [useDebounced] returns becomes [x] once the clock reaches [t + ms], and
    until then it stays what it was. *)
Theorem settles_after_the_delay (h : Hook) (t : nat) (x : string) (ms' : nat)
    (times : list nat) :
  x <> value h \/ ms' <> ms h ->
  v (run (render t x ms' h) (map Timeout times)) =
    if existsb (fun now => t + ms' <=? now) times then x else v h.
Proof.
  intros Hnew.
  assert (Hr : render t x ms' h = MkHook (v h) x ms' (Some (x, t + ms'))).
  { unfold render. destruct (String.eqb_spec x (value h)) as [Ex | _]; [|reflexivity].
    destruct (Nat.eqb_spec ms' (ms h)) as [Em | _]; [|reflexivity].
    destruct Hnew; contradiction. }
  rewrite Hr.
  exact (timeouts_while_pending times (MkHook (v h) x ms' (Some (x, t + ms')))
           x (t + ms') eq_refl).
Qed.

Lemma settles_after_the_delay_witness :
  v (run (render 100 "laptop" 450 (mount 0 "lap" 450)) (map Timeout [300; 560])) =
  "laptop".
Proof.
  apply (settles_after_the_delay (mount 0 "lap" 450) 100 "laptop" 450 [300; 560]).
  left. discriminate.
Defined.

(** X21: rendering again with the input and the delay of the render before
    changes nothing: the pending timeout is not started again, so it fires
    at the time first set. *)
Theorem same_input_keeps_the_timer (h : Hook) (t t' : nat) (x : string) (ms' : nat) :
  render t' x ms' (render t x ms' h) = render t x ms' h.
Proof.
  unfold render at 1.
  assert (Hv : value (render t x ms' h) = x /\ ms (render t x ms' h) = ms').
  { unfold render. destruct (String.eqb_spec x (value h)) as [Ex | _]; [|split; reflexivity].
    destruct (Nat.eqb_spec ms' (ms h)) as [Em | _]; [|split; reflexivity].
    cbn [andb]. split; congruence. }
  destruct Hv as [-> ->]. rewrite String.eqb_refl, Nat.eqb_refl. reflexivity.
Qed.

End DebounceFacts.

(** ** Properties of the trust modal and of the logger *)

Module ViewFacts.

Import JS Normalizer Pipeline App Components Logger.

Local Open Scope string_scope.

Lemma slice_first {A : Type} (l : list A) (n : nat) :
  slice l 0 (Z.of_nat n) = firstn n l.
Proof.
  unfold slice. cbn [Z.ltb Z.compare].
  destruct (Z.ltb_spec (Z.of_nat n) 0) as [Hneg | _]; [lia|].
  replace (Z.to_nat (Z.min 0 (Z.of_nat (List.length l)))) with 0%nat by lia.
  replace (Z.to_nat (Z.max (Z.min (Z.of_nat n) (Z.of_nat (List.length l)) -
                            Z.min 0 (Z.of_nat (List.length l))) 0))
    with (Nat.min n (List.length l)) by lia.
  cbn [skipn]. rewrite <- firstn_firstn, firstn_all. reflexivity.
Qed.

Lemma both_nil (a : completion (list block)) : both (Normal []) a = a.
Proof. destruct a; reflexivity. Qed.

Lemma both_normal (a b : completion (list block)) (l : list block) :
  both a b = Normal l ->
  exists x y, a = Normal x /\ b = Normal y /\ l = (x ++ y)%list.
Proof.
  destruct a as [x | e], b as [y | e']; try discriminate.
  intros E. injection E as <-. exists x, y. repeat split.
Qed.

Lemma guarded_normal (cond : value) (content : completion (list block))
    (l : list block) (b : block) :
  guarded cond content = Normal l -> In b l ->
  (ToBoolean cond = true /\ content = Normal l) \/ b = Text cond.
Proof.
  unfold guarded. destruct (ToBoolean cond); [left; split; [reflexivity | assumption]|].
  destruct cond; intros E; injection E as <-; intros Hb; try (destruct Hb; fail).
  destruct Hb as [<- | []]. right. reflexivity.
Qed.

Lemma showing_normal (children : list value) (b : block) (l : list block) :
  showing children b = Normal l -> l = [b] /\ forallb renderable children = true.
Proof.
  unfold showing. destruct (forallb renderable children); [|discriminate].
  intros E. injection E as <-. split; reflexivity.
Qed.

(** The body of the modal once the lookup is over and has given data. *)
Definition loaded_view (data : value) : completion (list block) :=
both (guarded (Get data "error")
        (showing [Get data "error"] (ErrorPill (Get data "error"))))
  (both (if negb (is_undefined (Get data "trust_score"))
         then showing [Get data "trust_score"] (TrustScore (Get data "trust_score"))
         else Normal [])
     (both (guarded (Get data "explanations") (highlights (Get data "explanations")))
        (Normal [RawData data]))).

Lemma TrustModal_loaded (data : value) :
  ToBoolean data = true -> TrustModal false data = loaded_view data.
Proof.
  intros Hd. unfold TrustModal, loaded_view. cbn [negb andb]. rewrite Hd. cbn [negb].
  rewrite !both_nil. unfold guarded at 1. rewrite Hd. reflexivity.
Qed.

Lemma both_throws (a b : completion (list block)) (e : exn) :
  both a b = Throw e -> a = Throw e \/ b = Throw e.
Proof.
  destruct a as [x | e1], b as [y | e2]; intros E; try discriminate;
    injection E as <-; auto.
Qed.

Lemma guarded_throws (cond : value) (content : completion (list block)) (e : exn) :
  guarded cond content = Throw e -> content = Throw e.
Proof.
  unfold guarded. destruct (ToBoolean cond); [auto|].
  destruct cond; discriminate.
Qed.

Lemma showing_throws (children : list value) (b : block) (e : exn) :
  showing children b = Throw e -> e = invalid_child.
Proof.
  unfold showing. destruct (forallb renderable children); [discriminate|].
  intros E. injection E as <-. reflexivity.
Qed.

(** React refuses with the same error whatever the child it refuses. *)
Lemma TrustModal_throws (loading : bool) (data : value) (e : exn) :
  TrustModal loading data = Throw e -> e = invalid_child.
Proof.
  unfold TrustModal. intros E.
  apply both_throws in E. destruct E as [E | E]; [destruct loading; discriminate|].
  apply both_throws in E. destruct E as [E | E]; [destruct (_ && _); discriminate|].
  destruct (negb loading); [|discriminate].
  apply guarded_throws, both_throws in E. destruct E as [E | E].
  { apply guarded_throws in E. exact (showing_throws _ _ _ E). }
  apply both_throws in E. destruct E as [E | E].
  { destruct (negb _); [exact (showing_throws _ _ _ E) | discriminate]. }
  apply both_throws in E. destruct E as [E | E]; [|discriminate].
  apply guarded_throws in E. unfold highlights in E.
  destruct (Get data "explanations"); try discriminate.
  exact (showing_throws _ _ _ E).
Qed.

(** X22: the modal lists highlights only when the lookup is over, the data
    is truthy and [data.explanations] is an array, and what it lists is the
    first eight explanations in their order (all of them when there are
    fewer).  In that situation it lists them whenever it renders, and it
    does not render when one of the first eight is an object, or an array
    that holds one: React refuses such a child. *)
Theorem highlights_are_the_first_eight (loading : bool) (data : value) :
  (forall blocks items,
     TrustModal loading data = Normal blocks -> In (Highlights items) blocks ->
     loading = false /\ ToBoolean data = true /\
     exists explanations,
       Get data "explanations" = VArr explanations /\
       items = firstn 8 explanations /\ (List.length items <= 8)%nat /\
       forallb renderable items = true) /\
  (forall explanations,
     loading = false -> ToBoolean data = true ->
     Get data "explanations" = VArr explanations ->
     (forall blocks, TrustModal loading data = Normal blocks ->
                     In (Highlights (firstn 8 explanations)) blocks) /\
     (forallb renderable (firstn 8 explanations) = false ->
      TrustModal loading data = Throw invalid_child) /\
     (forallb renderable (firstn 8 explanations) = true ->
      renderable (Get data "error") = true ->
      renderable (Get data "trust_score") = true ->
      exists blocks, TrustModal loading data = Normal blocks)).
Proof.
  assert (H8 : forall l : list value, slice l 0 8 = firstn 8 l)
    by exact (fun l => slice_first l 8).
  split.
  - intros blocks items Hm Hin.
    destruct loading.
    { unfold TrustModal in Hm. cbn in Hm. injection Hm as <-.
      destruct Hin as [Hin | []]. discriminate. }
    destruct (ToBoolean data) eqn:Hd.
    2:{ unfold TrustModal, guarded in Hm. cbn [negb andb] in Hm. rewrite Hd in Hm.
        destruct data; cbn in Hm; injection Hm as <-;
          repeat (destruct Hin as [Hin | Hin]; [discriminate|]); destruct Hin. }
    split; [reflexivity|]. split; [reflexivity|].
    rewrite (TrustModal_loaded data Hd) in Hm. unfold loaded_view in Hm.
    apply both_normal in Hm. destruct Hm as (l1 & r1 & He & Hm & ->).
    apply both_normal in Hm. destruct Hm as (l2 & r2 & Hs & Hm & ->).
    apply both_normal in Hm. destruct Hm as (l3 & r3 & Hh & Hm & ->).
    injection Hm as <-.
    apply in_app_or in Hin. destruct Hin as [Hin | Hin].
    { destruct (guarded_normal _ _ _ _ He Hin) as [[_ Hc] | Hc]; [|discriminate].
      apply showing_normal in Hc. destruct Hc as [-> _].
      destruct Hin as [Hin | []]. discriminate. }
    apply in_app_or in Hin. destruct Hin as [Hin | Hin].
    { destruct (negb _).
      - apply showing_normal in Hs. destruct Hs as [-> _].
        destruct Hin as [Hin | []]. discriminate.
      - injection Hs as <-. destruct Hin. }
    apply in_app_or in Hin. destruct Hin as [Hin | Hin];
      [|destruct Hin as [Hin | []]; discriminate].
    destruct (guarded_normal _ _ _ _ Hh Hin) as [[_ Hc] | Hc]; [|discriminate].
    unfold highlights in Hc.
    destruct (Get data "explanations") as [ | | ? | ? | ? | explanations | ? ];
      try (injection Hc as <-; destruct Hin; fail).
    apply showing_normal in Hc. destruct Hc as [-> Hr].
    destruct Hin as [Hin | []]. injection Hin as <-.
    exists explanations. rewrite H8 in *.
    repeat split; [apply firstn_le_length | exact Hr].
  - intros explanations -> Hd He.
    assert (Hview : TrustModal false data =
              both (guarded (Get data "error")
                      (showing [Get data "error"] (ErrorPill (Get data "error"))))
                (both (if negb (is_undefined (Get data "trust_score"))
                       then showing [Get data "trust_score"]
                              (TrustScore (Get data "trust_score"))
                       else Normal [])
                   (both (showing (firstn 8 explanations)
                            (Highlights (firstn 8 explanations)))
                      (Normal [RawData data])))).
    { rewrite (TrustModal_loaded data Hd). unfold loaded_view.
      rewrite He. unfold guarded at 2. cbn [ToBoolean highlights]. rewrite H8.
      reflexivity. }
    assert (Hnormal : forall blocks, TrustModal false data = Normal blocks ->
              In (Highlights (firstn 8 explanations)) blocks /\
              forallb renderable (firstn 8 explanations) = true).
    { intros blocks Hm. rewrite Hview in Hm.
      apply both_normal in Hm. destruct Hm as (l1 & r1 & _ & Hm & ->).
      apply both_normal in Hm. destruct Hm as (l2 & r2 & _ & Hm & ->).
      apply both_normal in Hm. destruct Hm as (l3 & r3 & Hh & _ & ->).
      apply showing_normal in Hh. destruct Hh as [-> Hr].
      split; [|exact Hr].
      apply in_or_app. right. apply in_or_app. right. left. reflexivity. }
    split; [|split].
    + intros blocks Hm. apply (Hnormal blocks Hm).
    + intros Hr. destruct (TrustModal false data) as [blocks | e] eqn:Hm.
      * destruct (Hnormal blocks eq_refl) as [_ Hr']. congruence.
      * f_equal. exact (TrustModal_throws false data e Hm).
    + intros Hr Hre Hrs. rewrite Hview.
      unfold guarded, showing. cbn [forallb]. rewrite Hr, Hre, Hrs. cbn [andb].
      destruct (ToBoolean (Get data "error")), (negb (is_undefined (Get data "trust_score")));
        try (eexists; reflexivity);
        destruct (Get data "error"); eexists; reflexivity.
Qed.

Definition nine : list value :=
map (fun c => VStr (String c "")) (list_ascii_of_string "abcdefghi").

(** Nine explanations: eight are listed and the raw data follows; an
    object among the first eight, and React refuses. *)
Example eight_of_nine :
  TrustModal false (obj [("explanations", VArr nine)]) =
    Normal [Highlights (firstn 8 nine); RawData (obj [("explanations", VArr nine)])] /\
  TrustModal false (obj [("explanations", VArr (VObj [] :: nine))]) =
    Throw invalid_child.
Proof. split; reflexivity. Qed.

Section Log.

Variable toUpperCase : string -> string.
Variable JSON_stringify : value -> completion string.
Variable timestamp : string.

(** The body of the request. *)
Definition log_entry (level message : string) (meta : value) : value :=
obj [("level", VStr level); ("message", VStr message); ("meta", meta);
     ("ts", VStr timestamp)].

(** X23: [sendLog] never fails and never waits: it completes normally
    whatever [JSON.stringify] does, writes no state and has no await.  It
    posts the entry to the log endpoint once, and when the entry cannot be
    serialised it sends nothing and writes a line to the console instead. *)
Theorem sendLog_never_fails (level message : string) (meta : value) (st : AppState) :
  let h := sendLog toUpperCase JSON_stringify timestamp level message meta in
  outcome_of h = Normal tt /\
  run_effects st (effects h) = st /\
  ~ In Await (effects h) /\
  filter is_fetch (effects h) =
    match JSON_stringify (log_entry level message meta) with
    | Normal body => [Fetch "POST" log_url (Some body)]
    | Throw _ => []
    end /\
  (forall e, JSON_stringify (log_entry level message meta) = Throw e ->
     last (effects h) Await = Console "error" "[sendLog error]").
Proof.
  intros h. subst h. unfold sendLog, log_entry.
  destruct (JSON_stringify _) as [body | e]; cbn.
  - repeat split; try discriminate. intros [E | [E | []]]; discriminate.
  - repeat split. intros [E | [E | []]]; discriminate.
Qed.

End Log.

End ViewFacts.

(** ** The slider and the filter together *)

Module SliderFacts.

Import JS PriceRange Normalizer Pipeline App.

Local Open Scope string_scope.

(** The order of binary64 numbers: nothing lies below [x] and above [y]
    when [x < y]. *)
Lemma SFcompare_chain (x y z : spec_float) :
  SFltb x y = true -> SFleb y z = true -> SFleb z x = false.
Proof.
  unfold SFltb, SFleb.
  destruct x as [ sx | sx | | sx mx ex ], y as [ sy | sy | | sy my ey ],
           z as [ sz | sz | | sz mz ez ];
    try destruct sx; try destruct sy; try destruct sz;
    cbn [SFcompare]; try discriminate; try reflexivity.
  all: repeat match goal with
              | |- context [Z.compare ?a ?b] => destruct (Z.compare_spec a b); subst
              end.
  all: try discriminate; try reflexivity; try lia.
  all: repeat match goal with
              | |- context [Pos.compare_cont Eq ?a ?b] =>
                  change (Pos.compare_cont Eq a b) with (Pos.compare a b);
                  destruct (Pos.compare_spec a b); subst
              end.
  all: cbn [CompOpp]; try discriminate; try reflexivity; try lia.
Qed.

Lemma below_the_lower_bound (n a b : number) :
  PrimFloat.ltb n a = true -> PrimFloat.leb a b = true -> PrimFloat.leb b n = false.
Proof. rewrite ltb_spec, !leb_spec. apply SFcompare_chain. Qed.

Lemma above_the_upper_bound (n a b : number) :
  PrimFloat.ltb a n = true -> PrimFloat.leb b a = true -> PrimFloat.leb n b = false.
Proof.
  rewrite ltb_spec, !leb_spec. intros Hlt Hle.
  destruct (SFleb (Prim2SF n) (Prim2SF b)) eqn:E; [|reflexivity].
  rewrite (SFcompare_chain _ _ _ Hlt E) in Hle. discriminate.
Qed.

(** The window of every slider position lies between 19750 and 100000. *)
Lemma window_within (p : Z) :
  (0 <= p <= 100)%Z ->
  PrimFloat.leb 19750 (fst (priceRange_of (of_Z p))) = true /\
  PrimFloat.leb (snd (priceRange_of (of_Z p))) 100000 = true.
Proof.
  intros Hp. apply PriceRangeFacts.slider_values in Hp.
  cbn [seq map Z.of_nat Pos.of_succ_nat Pos.succ] in Hp.
  repeat (destruct Hp as [<- | Hp]; [vm_compute; split; reflexivity|]).
  destruct Hp.
Qed.

Lemma outside_the_window (priceRange : number * number) (x : Product) (n : number) :
  PrimFloat.leb 19750 (fst priceRange) = true ->
  PrimFloat.leb (snd priceRange) 100000 = true ->
  price x = Some n ->
  PrimFloat.ltb n 19750 = true \/ PrimFloat.ltb 100000 n = true ->
  in_window priceRange x = false.
Proof.
  intros Hlo Hhi Hn Hout.
  unfold in_window. destruct priceRange as [minP maxP].
  cbn [fst snd] in Hlo, Hhi. rewrite Hn.
  destruct (negb (is_nan n)) eqn:En.
  - destruct Hout as [Hout | Hout].
    + rewrite (below_the_lower_bound n _ _ Hout Hlo). reflexivity.
    + rewrite (above_the_upper_bound n _ _ Hout Hhi). apply andb_false_r.
  - exfalso. apply negb_false_iff in En. unfold is_nan in En.
    apply negb_true_iff in En. rewrite FloatAxioms.eqb_spec in En.
    rewrite !ltb_spec in Hout. revert En Hout. unfold SFeqb, SFltb.
    destruct (Prim2SF n) as [ s | s | | s m e ]; cbn [SFcompare].
    + discriminate.
    + destruct s; discriminate.
    + intros _ [H | H]; discriminate.
    + destruct s; rewrite Z.compare_refl;
        change (Pos.compare_cont Eq m m) with (Pos.compare m m);
        rewrite Pos.compare_refl; discriminate.
Qed.

Definition budget_phone : Product :=
MkProduct (VStr "B0") (VStr "Phone") PrimFloat.one PrimFloat.one (Some 9999%float)
  VNull VNull.

(** A render whose window is the one the slider's effect has set for
    position [p]. *)
Definition after_slider_effect (p : Z) : AppState :=
{| prompt := prompt initial_state;
   debouncedPrompt := debouncedPrompt initial_state;
   priceImportance := p;
   priceRange := priceRange_of (of_Z p);
   sortBy := sortBy initial_state;
   page := page initial_state;
   products := products initial_state;
   loading := loading initial_state;
   trustFor := trustFor initial_state;
   error := error initial_state |}.

(** The response [[{asin: "B0", title: "Phone", score: 1, reviews_count: 1,
    price: 9999}]]. *)
Definition one_budget_phone : Response :=
MkResponse 200 None
  (Some (VArr [VObj [("asin", VStr "B0"); ("title", VStr "Phone");
                     ("score", VNum PrimFloat.one);
                     ("reviews_count", VNum PrimFloat.one);
                     ("price", VNum 9999%float)]])).

(** X24: the filter of [fetchRecommendations] reads the window of the
    render that built it.  When that window is the one the slider's effect
    sets for a position between 0 and 100, it lies between 19750 and 100000,
    so a product whose price is known and is below 19750 or above 100000
    does not pass it and is not in the list the handler stores, whatever the
    response.  (The window of the first render, [[0, 20000]], is not such a
    window: see [first_render_window].) *)
Theorem no_slider_window_stores (random : nat -> number)
    (encodeURIComponent : value -> completion string) (p : Z) (st st0 : AppState)
    (opts : option string) (outcome : fetch_outcome) (x : Product) (n : number) :
  (0 <= p <= 100)%Z ->
  priceRange st = priceRange_of (of_Z p) ->
  price x = Some n ->
  PrimFloat.ltb n 19750 = true \/ PrimFloat.ltb 100000 n = true ->
  in_window (priceRange st) x = false /\
  ~ In x (products
            (run_effects st0
               (effects (fetchRecommendations random encodeURIComponent st opts outcome)))).
Proof.
  intros Hp Hst Hn Hout.
  assert (Hw : in_window (priceRange st) x = false).
  { destruct (window_within p Hp) as [Hlo Hhi]. rewrite Hst.
    apply (outside_the_window _ x n Hlo Hhi Hn Hout). }
  split; [exact Hw|].
  intros Hin. apply HandlerFacts.stored_passes_window in Hin. congruence.
Qed.

Lemma no_slider_window_stores_witness :
  in_window (priceRange (after_slider_effect 30)) budget_phone = false /\
  ~ In budget_phone
      (products
         (run_effects (after_slider_effect 30)
            (effects (fetchRecommendations (fun _ => PrimFloat.zero) plain_encoding
                        (after_slider_effect 30) None (Resolved one_budget_phone))))).
Proof.
  apply (no_slider_window_stores (fun _ => PrimFloat.zero) plain_encoding 30
           (after_slider_effect 30) (after_slider_effect 30) None
           (Resolved one_budget_phone) budget_phone 9999%float).
  - lia.
  - reflexivity.
  - reflexivity.
  - left. reflexivity.
Defined.

(** The first render has the slider at 30 and the window [[0, 20000]], which
    is not the window of position 30; a search made from that render keeps
    a product priced 9999. *)
Example first_render_window :
  priceImportance initial_state = 30%Z /\
  priceRange initial_state = (PrimFloat.zero, 20000%float) /\
  priceRange_of 30%float = (47750%float, 76250%float) /\
  in_window (priceRange initial_state) budget_phone = true /\
  map price
    (products
       (run_effects initial_state
          (effects (fetchRecommendations (fun _ => PrimFloat.zero) plain_encoding
                      initial_state None (Resolved one_budget_phone))))) =
    [Some 9999%float] /\
  products
    (run_effects (after_slider_effect 30)
       (effects (fetchRecommendations (fun _ => PrimFloat.zero) plain_encoding
                   (after_slider_effect 30) None (Resolved one_budget_phone)))) = [].
Proof. repeat split; vm_compute; reflexivity. Qed.

End SliderFacts.
